(** * Incremental sitemap indexing: the loader graph and the Slack message builder

    A shallow embedding of [src/loader_graph/graph.py] (the nodes
    [filter_sitemap_entries], [create_documents], the router
    [check_next_batch] and the loop the graph builds from them) and of
    [SlackBot._build_slack_message_blocks] from
    [src/slack_integration/slack_bot.py].

    Python lists are Rocq lists, dictionaries are [gmap]s, [int] is [Z]
    (lengths and counts of the store are [nat]), [datetime] values are
    points of a total order and are represented by [Z].  Exceptions are
    values of [exn]; code that talks to the vector store runs in a small
    state-and-exception monad over [World]. *)

From stdpp Require Import base option list gmap strings pretty.

Open Scope string_scope.
Open Scope list_scope.
Open Scope nat_scope.

(** ** Python exceptions and results *)

Inductive exn : Type :=
  | ValueError (msg : string)
  | RuntimeError (msg : string)
  | KeyError (key : string)
  | StoreError (msg : string)
  | GraphRecursionError.

(** [str(e)] as used by the f-string in the [except] clause. *)
Definition str_exn (e : exn) : string :=
  match e with
  | ValueError msg | RuntimeError msg | StoreError msg => msg
  | KeyError key => "'" +:+ key +:+ "'"
  | GraphRecursionError => "Recursion limit reached"
  end.

Inductive result (A : Type) : Type :=
  | Ok (a : A)
  | Raise (e : exn).
Arguments Ok {A} a.
Arguments Raise {A} e.

(** ** Data model *)

(** Modelled from the spec: [SitemapEntry] is [{url, lastmod}]; its class
    lives in [src/utils/sitemap_entry.py], which is not among the sources.
    [lastmod] is a [datetime]. *)
Record SitemapEntry : Type := { url : string; lastmod : Z }.

(** A stored chunk: the [metadata] dictionary and the text of a langchain
    [Document].  The vector store keys chunks by id. *)
Record Document : Type :=
  { metadata : gmap string string; page_content : string }.

(** The dictionaries [{"id": .., "source": .., "lastmod": ..}] that
    [filter_sitemap_entries] builds from the search results. *)
Record Metadata : Type :=
  { md_id : string; md_source : string; md_lastmod : string }.

(** Modelled from the spec: [LoaderState] ([src/utils/state.py] is not among
    the sources) carries the pending queue, which may be [None], and the
    running count. *)
Record LoaderState : Type :=
  { sitemap_entries : option (list SitemapEntry); documents_count : Z }.

(** ** The reconciliation loops of [filter_sitemap_entries] *)

(** The inner [for (db_url, db_lastmod) in db_entries] loop with its two
    [break]s: 0 new, 1 exists (no update), 2 exists but updated. *)
Fixpoint vector_flag (entry : SitemapEntry) (db_entries : list (string * Z)) : nat :=
  match db_entries with
  | [] => 0
  | (db_url, db_lastmod) :: rest =>
      if decide (url entry = db_url) then
        if decide (lastmod entry ≤ db_lastmod)%Z then 1 else 2
      else vector_flag entry rest
  end.

(** [for metadata in metadata_list: if metadata["source"] == entry.url:
    delete_ids.append(metadata["id"])]. *)
Definition append_ids (entry : SitemapEntry) (metadata_list : list Metadata)
    (delete_ids : list string) : list string :=
  foldl (λ ids m, if decide (md_source m = url entry) then ids ++ [md_id m] else ids)
        delete_ids metadata_list.

(** One iteration of [for entry in sitemap_entries], on the pair
    [(new_entries, delete_ids)]. *)
Definition filter_step (metadata_list : list Metadata) (db_entries : list (string * Z))
    (acc : list SitemapEntry * list string) (entry : SitemapEntry)
    : list SitemapEntry * list string :=
  match vector_flag entry db_entries with
  | 0 => (acc.1 ++ [entry], acc.2)
  | 1 => acc
  | 2 => (acc.1 ++ [entry], append_ids entry metadata_list acc.2)
  | _ => acc
  end.

Definition filter_loop (metadata_list : list Metadata) (db_entries : list (string * Z))
    (entries : list SitemapEntry) : list SitemapEntry * list string :=
  foldl (filter_step metadata_list db_entries) ([], []) entries.

(** The spec's [ReconciliationDecision], read off the flag. *)
Inductive ReconciliationDecision : Type := New | Unchanged | Stale.

Definition decision (entry : SitemapEntry) (db_entries : list (string * Z))
    : ReconciliationDecision :=
  match vector_flag entry db_entries with
  | 0 => New
  | 1 => Unchanged
  | _ => Stale
  end.


(** ** Configuration *)

Inductive pyval : Type := PyStr (s : string) | PyInt (z : Z).

(** A [RunnableConfig] is a dictionary; the loader reads its
    ["configurable"] entry only.  [None] and the empty dictionary are the
    falsy values that [if not config] rejects. *)
Abbreviation RunnableConfig := (gmap string (gmap string pyval)).

Definition not_config (config : option RunnableConfig) : bool :=
  match config with
  | None => true
  | Some c => bool_decide (size c = 0)
  end.

Record LoaderConfiguration : Type :=
  { index_name : string; load_documents_batch_size : Z }.

(** ** What the code gets from outside

    The Python runtime ([datetime.fromisoformat], the iteration order of a
    [set]), the loader and splitter that [create_documents] calls, the ids
    that the store gives to added chunks, and the default of
    [LoaderConfiguration.load_documents_batch_size] (the class is not among
    the sources).  The iteration order of a set is some enumeration without
    repetition of the elements that were inserted. *)
Class Platform : Type :=
  { fromisoformat : string → option Z;
    set_iter : list (string * Z) → list (string * Z);
    set_iter_perm : ∀ l, set_iter l ≡ₚ remove_dups l;
    load_and_split : list SitemapEntry → result (list Document);
    new_id : gmap string Document → string;
    new_id_fresh : ∀ s, s !! new_id s = None;
    default_batch_size : Z }.

(** [LoaderConfiguration.from_runnable_config]: the fields present under
    ["configurable"] override the defaults ([index_name] defaults to
    ["default"]). *)
Definition from_runnable_config `{Platform} (config : option RunnableConfig)
    : LoaderConfiguration :=
  let configurable := default ∅ (default ∅ config !! "configurable") in
  {| index_name :=
       match configurable !! "index_name" with
       | Some (PyStr s) => s
       | _ => "default"
       end;
     load_documents_batch_size :=
       match configurable !! "load_documents_batch_size" with
       | Some (PyInt z) => z
       | _ => default_batch_size
       end |}.

(** ** The world: the vector store and the calls made on it *)

Inductive call : Type :=
  | CallCount
  | CallSearch (query : string) (k : nat)
  | CallDelete (ids : list string)
  | CallLoad (batch : list SitemapEntry)
  | CallAdd (n : nat).

(** [search_fault], when set, is the error the store raises on the next
    similarity search. *)
Record World : Type :=
  { store : gmap string Document;
    search_fault : option exn;
    calls : list call }.

Definition log (c : call) (w : World) : World :=
  {| store := store w; search_fault := search_fault w; calls := calls w ++ [c] |}.

Definition set_store (s : gmap string Document) (w : World) : World :=
  {| store := s; search_fault := search_fault w; calls := calls w |}.

(** State and exceptions. *)
Definition M (A : Type) : Type := World → result A * World.

Global Instance M_ret : MRet M := λ A a w, (Ok a, w).
Global Instance M_bind : MBind M := λ A B f m w,
  match m w with
  | (Ok a, w') => f a w'
  | (Raise e, w') => (Raise e, w')
  end.

Definition raise {A} (e : exn) : M A := λ w, (Raise e, w).

Definition lift {A} (r : result A) : M A := λ w, (r, w).

(** [try: m except Exception as e: h e]. *)
Definition try_except {A} (m : M A) (h : exn → M A) : M A := λ w,
  match m w with
  | (Ok a, w') => (Ok a, w')
  | (Raise e, w') => h e w'
  end.

Global Instance result_ret : MRet result := λ A a, Ok a.
Global Instance result_bind : MBind result := λ A B f r,
  match r with
  | Ok a => f a
  | Raise e => Raise e
  end.

(** *** The vector-store manager *)

Record VectorStoreManager : Type := { total_count : nat }.

(** Modelled from the spec: [VectorStoreManager] ([src/utils/vector_store_manager.py]
    is not among the sources) offers [count], [similarity_search], [add] and
    [delete]; a new manager reads the number of stored chunks. *)
Definition new_manager (index : string) : M VectorStoreManager := λ w,
  (Ok {| total_count := size (store w) |}, log CallCount w).

(** The [k] best matches with their ids; the order of [map_to_list] stands
    for the ranking. *)
Definition similarity_search (query : string) (k : nat) : M (list (string * Document)) := λ w,
  match search_fault w with
  | Some e => (Raise e, log (CallSearch query k) w)
  | None => (Ok (take k (map_to_list (store w))), log (CallSearch query k) w)
  end.

(** Modelled from the spec: deleting an id that is absent is not an error. *)
Definition delete_by_ids (ids : list string) : M unit := λ w,
  (Ok (), log (CallDelete ids) (set_store (foldr delete (store w) ids) w)).

(** Modelled from the spec: [add] persists the chunks, each under an id of
    the store's choosing. *)
Definition add_documents `{Platform} (documents : list Document) : M unit := λ w,
  (Ok (), log (CallAdd (length documents))
              (set_store (foldl (λ s d, <[new_id s := d]> s) (store w) documents) w)).

Definition load `{Platform} (batch : list SitemapEntry) : M (list Document) := λ w,
  (load_and_split batch, log (CallLoad batch) w).

(** ** Node 2: [filter_sitemap_entries] *)

(** [d[key]] on a dictionary. *)
Definition getitem (d : gmap string string) (key : string) : result string :=
  match d !! key with
  | Some v => Ok v
  | None => Raise (KeyError key)
  end.

(** The list comprehension over the search results. *)
Fixpoint metadata_list_of (results : list (string * Document)) : result (list Metadata) :=
  match results with
  | [] => Ok []
  | (i, doc) :: rest =>
      source ← getitem (metadata doc) "source";
      lm ← getitem (metadata doc) "lastmod";
      tail ← metadata_list_of rest;
      Ok ({| md_id := i; md_source := source; md_lastmod := lm |} :: tail)
  end.

(** The elements of the set comprehension, in the order they are inserted;
    [fromisoformat] raises [ValueError] on a string it cannot read. *)
Fixpoint db_pairs `{Platform} (metadata_list : list Metadata) : result (list (string * Z)) :=
  match metadata_list with
  | [] => Ok []
  | m :: rest =>
      match fromisoformat (md_lastmod m) with
      | None => Raise (ValueError ("Invalid isoformat string: '" +:+ md_lastmod m +:+ "'"))
      | Some t => tail ← db_pairs rest; Ok ((md_source m, t) :: tail)
      end
  end.

Definition filter_sitemap_entries `{Platform} (state : LoaderState)
    (config : option RunnableConfig) : M LoaderState :=
  match sitemap_entries state with
  | None => raise (ValueError "No sitemap entries found in state.")
  | Some entries =>
      if not_config config then
        raise (ValueError "Configuration required to run <filter_sitemap_entries>.")
      else
        let configuration := from_runnable_config config in
        vsm ← new_manager (index_name configuration);
        let k := if decide (total_count vsm = 0) then 1 else total_count vsm in
        metadata_list ←
          try_except
            (results ← similarity_search "" k; lift (metadata_list_of results))
            (λ e, raise (RuntimeError ("Failed to retrieve documents: " +:+ str_exn e)));
        pairs ← lift (db_pairs metadata_list);
        let db_entries := set_iter pairs in
        let '(new_entries, delete_ids) := filter_loop metadata_list db_entries entries in
        _ ← delete_by_ids delete_ids;
        mret {| sitemap_entries := Some new_entries;
                documents_count := documents_count state |}
  end.

(** ** Node 3: [create_documents], and the router [check_next_batch] *)

(** Python slices [l[:n]] and [l[n:]] for an [int] bound: a negative bound
    counts from the end. *)
Definition slice_to {A} (n : Z) (l : list A) : list A :=
  if decide (0 ≤ n)%Z then take (Z.to_nat n) l
  else take (length l - Z.to_nat (- n)) l.

Definition slice_from {A} (n : Z) (l : list A) : list A :=
  if decide (0 ≤ n)%Z then drop (Z.to_nat n) l
  else drop (length l - Z.to_nat (- n)) l.

(** The queue of a state; [None] and [[]] are both falsy. *)
Definition pending (state : LoaderState) : list SitemapEntry :=
  default [] (sitemap_entries state).

(** The manager made here is local to the call: its own [total_count],
    which the code also increases by the number of chunks, is dropped with
    it, and the count that survives is [documents_count] of the state. *)
Definition create_documents `{Platform} (state : LoaderState)
    (config : option RunnableConfig) : M LoaderState :=
  if not_config config then
    raise (ValueError "Configuration required to run <filter_sitemap_entries>.")
  else
    let configuration := from_runnable_config config in
    let batch_size := load_documents_batch_size configuration in
    match pending state with
    | [] => mret {| sitemap_entries := sitemap_entries state; documents_count := 0 |}
    | _ :: _ =>
        let batch := slice_to batch_size (pending state) in
        vsm ← new_manager (index_name configuration);
        processed_documents ← load batch;
        _ ← add_documents processed_documents;
        mret {| sitemap_entries := Some (slice_from batch_size (pending state));
                documents_count :=
                  (documents_count state + Z.of_nat (length processed_documents))%Z |}
    end.

Inductive route : Type := goto_create_documents | goto_end.

Definition check_next_batch (state : LoaderState) : route :=
  match pending state with
  | [] => goto_end
  | _ :: _ => goto_create_documents
  end.

(** The cycle [create_documents -> check_next_batch -> create_documents]
    that the graph builds; [limit] is the graph's recursion limit, counted in
    visits of [create_documents]. *)
Fixpoint batch_loop `{Platform} (limit : nat) (state : LoaderState)
    (config : option RunnableConfig) : M LoaderState :=
  match limit with
  | 0 => raise GraphRecursionError
  | S limit' =>
      state' ← create_documents state config;
      match check_next_batch state' with
      | goto_end => mret state'
      | goto_create_documents => batch_loop limit' state' config
      end
  end.

(** The graph from [filter_sitemap_entries] on. *)
Definition loader_graph `{Platform} (limit : nat) (state : LoaderState)
    (config : option RunnableConfig) : M LoaderState :=
  state' ← filter_sitemap_entries state config;
  batch_loop limit state' config.

(** ** [SlackBot._build_slack_message_blocks] *)

Inductive block : Type :=
  | section (mrkdwn : string)
  | divider.

Definition nl : string := String (Ascii.ascii_of_nat 10) EmptyString.

(** [result.get(key, fallback)]. *)
Definition get (d : gmap string string) (key fallback : string) : string :=
  default fallback (d !! key).

Definition result_text (r : gmap string string) : string :=
  get r "url" "URL not available" +:+ nl +:+ nl +:+
  "• *Summary:* " +:+ get r "summary" "Summary not available" +:+ nl +:+ nl +:+
  "• *Hint:* " +:+ get r "response" "Response not available".

Definition build_slack_message_blocks (results : list (gmap string string)) : list block :=
  foldl (λ blocks r, (blocks ++ [section (result_text r)]) ++ [divider])
        [section "*Analysis Results:*"; divider]
        (take 20 results).

(** ** [SlackBot]: the event check and the message handler *)

(** The value of a key of a Slack event.  The handler reads the keys
    [channel_type], [bot_id], [text], [user] and [channel], which hold JSON
    scalars. *)
Inductive json : Type :=
  | JNull
  | JBool (b : bool)
  | JNum (z : Z)
  | JStr (s : string).

(** The exceptions of this module: those of [exn], the [AttributeError] of
    a method that the value does not have, and what the Slack client
    raises. *)
Inductive raised : Type :=
  | Std (e : exn)
  | AttributeError (msg : string)
  | SlackApiError (msg : string).

Inductive outcome (A : Type) : Type :=
  | Done (a : A)
  | Failed (e : raised).
Arguments Done {A} a.
Arguments Failed {A} e.

Inductive content : Type :=
  | Text (text : string)
  | Blocks (blocks : list block).

(** The two calls of [client.chat_postMessage]: the placeholder, with
    [channel], [text] and [user], and the response, with [channel], [text]
    or [blocks], and [unfurl_links=False]. *)
Inductive message : Type :=
  | Placeholder (channel : json) (text : string) (user : option json)
  | Response (channel : json) (c : content).

(** What the handler does to the outside, in order; a [Posted] is an
    attempt, which the client may refuse. *)
Inductive action : Type :=
  | Acked
  | Posted (m : message)
  | Asked (text : string)
  | Said (text : string).

(** What the handler is given: [str.strip], the [ack] and [say] callbacks,
    the Slack client, and [rag_system.get_answer(text, filter_false=True,
    analysis_model="gpt-4o")]. *)
Class Chat : Type :=
  { strip : string → string;
    ack : outcome unit;
    say : string → outcome unit;
    chat_postMessage : message → outcome unit;
    get_answer : string → outcome (list (gmap string string)) }.

Definition Bot (A : Type) : Type := list action → outcome A * list action.

Global Instance Bot_ret : MRet Bot := λ A a l, (Done a, l).
Global Instance Bot_bind : MBind Bot := λ A B f m l,
  match m l with
  | (Done a, l') => f a l'
  | (Failed e, l') => (Failed e, l')
  end.

Definition fail {A} (e : raised) : Bot A := λ l, (Failed e, l).

Definition lift_outcome {A} (o : outcome A) : Bot A := λ l, (o, l).

(** An effect: the action is recorded, the outcome is the callee's. *)
Definition perform {A} (a : action) (o : outcome A) : Bot A := λ l, (o, l ++ [a]).

(** [try: m except Exception as e: h e]. *)
Definition attempt {A} (m : Bot A) (h : raised → Bot A) : Bot A := λ l,
  match m l with
  | (Done a, l') => (Done a, l')
  | (Failed e, l') => h e l'
  end.

(** Truthiness of [event.get(key)]. *)
Definition truthy (v : option json) : bool :=
  match v with
  | None | Some JNull => false
  | Some (JBool b) => b
  | Some (JNum z) => bool_decide (z ≠ 0%Z)
  | Some (JStr s) => bool_decide (s ≠ "")
  end.

(** [v.strip()]: only a [str] has the method. *)
Definition strip_value `{Chat} (v : json) : outcome string :=
  match v with
  | JStr s => Done (strip s)
  | JNull => Failed (AttributeError "'NoneType' object has no attribute 'strip'")
  | JBool _ => Failed (AttributeError "'bool' object has no attribute 'strip'")
  | JNum _ => Failed (AttributeError "'int' object has no attribute 'strip'")
  end.

(** [event.get('channel_type') in ['im', 'group']]. *)
Definition direct_channel (event : gmap string json) : bool :=
  match event !! "channel_type" with
  | Some (JStr s) => bool_decide (s = "im") || bool_decide (s = "group")
  | _ => false
  end.

Definition is_valid_event `{Chat} (event : gmap string json) : outcome bool :=
  if negb (direct_channel event) then Done false
  else if truthy (event !! "bot_id") then Done false
  else
    match strip_value (default (JStr "") (event !! "text")) with
    | Failed e => Failed e
    | Done text =>
        if bool_decide (text = "") then Failed (Std (ValueError "Message text is empty."))
        else Done true
    end.

(** [str(v)] inside the f-string of the placeholder. *)
Definition format_value (v : option json) : string :=
  match v with
  | None | Some JNull => "None"
  | Some (JBool true) => "True"
  | Some (JBool false) => "False"
  | Some (JNum z) => pretty z
  | Some (JStr s) => s
  end.

Definition placeholder_text (user : option json) : string :=
  "Hi <@" +:+ format_value user +:+ ">, I'm starting to process your request...".

Definition send_typing_placeholder `{Chat} (channel_id : json) (user : option json) : Bot unit :=
  let m := Placeholder channel_id (placeholder_text user) user in
  attempt (perform (Posted m) (chat_postMessage m))
          (λ _, fail (Std (ValueError "Unable to send 'Thinking...' placeholder."))).

Definition generate_response `{Chat} (text : string) : Bot content :=
  results ← perform (Asked text) (get_answer text);
  match results with
  | [] => mret (Text "No relevant information found for your query.")
  | _ :: _ => mret (Blocks (build_slack_message_blocks results))
  end.

Definition send_response `{Chat} (channel_id : json) (response : content) : Bot unit :=
  let m := Response channel_id response in
  attempt (perform (Posted m) (chat_postMessage m))
          (λ _, fail (Std (ValueError "Unable to send the Slack response."))).

(** [d[key]] on an event. *)
Definition getitem_json (d : gmap string json) (key : string) : outcome json :=
  match d !! key with
  | Some v => Done v
  | None => Failed (Std (KeyError key))
  end.

(** The two [except] clauses of the handler. *)
Definition on_error `{Chat} (e : raised) : Bot unit :=
  match e with
  | Std (ValueError msg) => perform (Said msg) (say msg)
  | _ => perform (Said "An unexpected error occurred. Please try again later.")
                 (say "An unexpected error occurred. Please try again later.")
  end.

(** [handle_direct_message]; [body_event] is [body["event"]] when the body
    has that key. *)
Definition handle_direct_message `{Chat} (body_event : option (gmap string json)) : Bot unit :=
  _ ← perform Acked ack;
  attempt
    (let event := default ∅ body_event in
     valid ← lift_outcome (is_valid_event event);
     if negb valid then mret ()
     else
       channel_id ← lift_outcome (getitem_json event "channel");
       text ← lift_outcome (strip_value (default (JStr "") (event !! "text")));
       let user_id := event !! "user" in
       _ ← send_typing_placeholder channel_id user_id;
       response ← generate_response text;
       send_response channel_id response)
    on_error.

(** ** [DocumentProcessor.load_and_index_documents] *)





(** ** A reference platform

    Dates [YYYY-MM-DD] read as the number [YYYYMMDD] (an order embedding of
    the calendar), sets iterated in insertion order, a loader that yields one
    chunk per entry stamped with the entry's url and date, and the store's
    least unused id. *)

Definition digit (a : Ascii.ascii) : option Z :=
  let n := Z.of_nat (Ascii.nat_of_ascii a) in
  if decide (48 ≤ n ≤ 57)%Z then Some (n - 48)%Z else None.

Definition number2 (a b : Ascii.ascii) : option Z :=
  x ← digit a; y ← digit b; Some (10 * x + y)%Z.

Definition dash : Ascii.ascii := Ascii.ascii_of_nat 45.

Definition date_fromisoformat (s : string) : option Z :=
  match s with
  | String y1 (String y2 (String y3 (String y4 (String s1 (String m1 (String m2
      (String s2 (String d1 (String d2 EmptyString))))))))) =>
      c ← number2 y1 y2; y ← number2 y3 y4; m ← number2 m1 m2; d ← number2 d1 d2;
      if decide (s1 = dash ∧ s2 = dash ∧ 1 ≤ m ≤ 12 ∧ 1 ≤ d ≤ 31)%Z
      then Some (1000000 * c + 10000 * y + 100 * m + d)%Z else None
  | _ => None
  end.

Definition digit_char (z : Z) : string :=
  String (Ascii.ascii_of_nat (Z.to_nat (48 + z `mod` 10))) EmptyString.

Definition date_isoformat (t : Z) : string :=
  digit_char (t / 10000000) +:+ digit_char (t / 1000000) +:+
  digit_char (t / 100000) +:+ digit_char (t / 10000) +:+ "-" +:+
  digit_char (t / 1000) +:+ digit_char (t / 100) +:+ "-" +:+
  digit_char (t / 10) +:+ digit_char t.

Definition chunk_of (entry : SitemapEntry) : Document :=
  {| metadata := <["source" := url entry]>
                   (<["lastmod" := date_isoformat (lastmod entry)]> ∅);
     page_content := "" |}.

Definition least_id (s : gmap string Document) : string := fresh (dom s).

Lemma least_id_fresh (s : gmap string Document) : s !! least_id s = None.
Proof. unfold least_id. apply (not_elem_of_dom (D := gset string)), is_fresh. Qed.

Definition reference_platform : Platform :=
  {| fromisoformat := date_fromisoformat;
     set_iter := remove_dups;
     set_iter_perm := λ l, reflexivity (remove_dups l);
     load_and_split := λ batch, Ok (chunk_of <$> batch);
     new_id := least_id;
     new_id_fresh := least_id_fresh;
     default_batch_size := 10 |}.

(** The same platform with sets iterated in the opposite order. *)
Lemma reverse_remove_dups_perm (l : list (string * Z)) :
  reverse (remove_dups l) ≡ₚ remove_dups l.
Proof. apply reverse_Permutation. Qed.

Definition reversed_platform : Platform :=
  {| fromisoformat := date_fromisoformat;
     set_iter := λ l, reverse (remove_dups l);
     set_iter_perm := reverse_remove_dups_perm;
     load_and_split := λ batch, Ok (chunk_of <$> batch);
     new_id := least_id;
     new_id_fresh := least_id_fresh;
     default_batch_size := 10 |}.

Definition empty_world : World := {| store := ∅; search_fault := None; calls := [] |}.

Definition some_config : option RunnableConfig :=
  Some {[ "configurable" := {[ "index_name" := PyStr "blog" ]} ]}.

Definition config_with_batch_size (b : Z) : option RunnableConfig :=
  Some {[ "configurable" := {[ "load_documents_batch_size" := PyInt b ]} ]}.

Definition record (source lm : string) : Document :=
  {| metadata := <["source" := source]> (<["lastmod" := lm]> ∅); page_content := "" |}.

Definition world_of (s : gmap string Document) : World :=
  {| store := s; search_fault := None; calls := [] |}.

Definition entry_a : SitemapEntry := {| url := "a"; lastmod := 20240101 |}.

(** ** Vocabulary of the properties *)

(** The ids of the fetched records of one url, in the order of the fetch. *)
Definition ids_of (u : string) (metadata_list : list Metadata) : list string :=
  md_id <$> filter (λ m, md_source m = u) metadata_list.

(** What one entry adds to the two lists. *)
Definition indexed (db_entries : list (string * Z)) (entry : SitemapEntry) : Prop :=
  vector_flag entry db_entries ≠ 1.

Global Instance indexed_dec db_entries entry : Decision (indexed db_entries entry).
Proof. unfold indexed. apply _. Defined.

Definition stale_ids (metadata_list : list Metadata) (db_entries : list (string * Z))
    (entry : SitemapEntry) : list string :=
  if decide (vector_flag entry db_entries = 2) then ids_of (url entry) metadata_list else [].

(** The spec's [IndexedDocumentRecord]: chunk [i] of the store belongs to
    url [u]; and, with its date read, to url [u] at date [t]. *)
Definition has_source (s : gmap string Document) (i u : string) : Prop :=
  ∃ doc, s !! i = Some doc ∧ metadata doc !! "source" = Some u.

Definition has_record `{Platform} (s : gmap string Document) (i u : string) (t : Z) : Prop :=
  ∃ doc lm, s !! i = Some doc ∧ metadata doc !! "source" = Some u
            ∧ metadata doc !! "lastmod" = Some lm ∧ fromisoformat lm = Some t.

(** What was fetched from store [s]: the list of dictionaries and the
    iteration of the set of (url, date) pairs. *)
Definition fetched `{Platform} (s : gmap string Document) (md : list Metadata)
    (db : list (string * Z)) : Prop :=
  ∃ pairs, metadata_list_of (map_to_list s) = Ok md
           ∧ db_pairs md = Ok pairs ∧ db = set_iter pairs.

(** A store all of whose chunks carry a url and a readable date can be
    fetched. *)
Definition well_stamped `{Platform} (s : gmap string Document) : Prop :=
  ∀ i doc, s !! i = Some doc →
    is_Some (metadata doc !! "source")
    ∧ ∃ lm, metadata doc !! "lastmod" = Some lm ∧ is_Some (fromisoformat lm).

(** The world after a reconciliation that deleted [ids] from [w]. *)
Definition fetch_size (w : World) : nat :=
  if decide (size (store w) = 0) then 1 else size (store w).

Definition after_filter (w : World) (ids : list string) : World :=
  {| store := foldr delete (store w) ids;
     search_fault := search_fault w;
     calls := calls w ++ [CallCount; CallSearch "" (fetch_size w); CallDelete ids] |}.

(** The two outputs of the reconciliation, as the spec names them: the
    entries the node returns, and the ids of its [delete_by_ids] call, the
    last call it makes. *)
Definition to_index (state' : LoaderState) : list SitemapEntry := pending state'.

Definition to_delete (w' : World) : list string :=
  match last (calls w') with
  | Some (CallDelete ids) => ids
  | _ => []
  end.

Definition entry_feb : SitemapEntry := {| url := "a"; lastmod := 20240201 |}.

Definition two_dates : World :=
  world_of {[ "x" := record "a" "2024-01-01"; "y" := record "a" "2024-03-01" ]}.

Definition state_of (entries : list SitemapEntry) : LoaderState :=
  {| sitemap_entries := Some entries; documents_count := 0 |}.

(** The comparison of C2 read against every record of the entry's url:
    whichever record [i] of the url one looks at, the entry is kept out of
    [to_index] when it is not newer than the record and put into it when it
    is. *)
Definition compared_with_every_record (P : Platform) (state : LoaderState)
    (config : option RunnableConfig) (w : World) : Prop :=
  ∀ state' w' entries entry i t,
    sitemap_entries state = Some entries →
    entry ∈ entries →
    has_record (store w) i (url entry) t →
    filter_sitemap_entries state config w = (Ok state', w') →
    ((lastmod entry ≤ t)%Z → entry ∉ to_index state')
    ∧ ((t < lastmod entry)%Z → entry ∈ to_index state').

(** The invariant of C3 as stated, on the store [s'] left by a
    reconciliation of [entries]: a url has no record, or the sitemap has an
    entry for it and every record of the url carries that entry's date. *)
Definition store_matches_sitemap `{Platform} (entries : list SitemapEntry)
    (s' : gmap string Document) : Prop :=
  ∀ u, (∀ i, ¬ has_source s' i u)
       ∨ ∃ entry, entry ∈ entries ∧ url entry = u
                  ∧ ∀ i t, has_record s' i u t → t = lastmod entry.

(** The precondition under which the code keeps its part of it: the records
    of a url all carry one date. *)
Definition one_date_per_url `{Platform} (s : gmap string Document) : Prop :=
  ∀ u i j t t', has_record s i u t → has_record s j u t' → t = t'.

Definition world_mar : World := world_of {[ "x" := record "a" "2024-03-01" ]}.

(** The two failures of the reconciliation under the names the spec gives
    them: the [ValueError] of [if not config], and the [RuntimeError] that
    wraps whatever the fetch raised. *)
Definition ConfigurationError : exn :=
  ValueError "Configuration required to run <filter_sitemap_entries>.".

Definition RetrievalError (cause : exn) : exn :=
  RuntimeError ("Failed to retrieve documents: " +:+ str_exn cause).

(** The ids of all [delete_by_ids] calls among [cs]. *)
Definition deletions (cs : list call) : list (list string) :=
  omap (λ c, match c with CallDelete ids => Some ids | _ => None end) cs.

Definition faulty_world : World :=
  {| store := {[ "x" := record "a" "2024-01-01" ]};
     search_fault := Some (StoreError "connection refused");
     calls := [] |}.

(** The batches of [b] entries of a queue, first to last; [n] bounds their
    number. *)
Fixpoint batches_upto {A} (n b : nat) (q : list A) : list (list A) :=
  match n, q with
  | S n', _ :: _ => take b q :: batches_upto n' b (drop b q)
  | _, _ => []
  end.

Definition batches {A} (b : nat) (q : list A) : list (list A) :=
  batches_upto (length q) b q.

(** The batches handed to the loader and the numbers of chunks added, among
    the calls [cs]. *)
Definition loads (cs : list call) : list (list SitemapEntry) :=
  omap (λ c, match c with CallLoad batch => Some batch | _ => None end) cs.

Definition adds (cs : list call) : list nat :=
  omap (λ c, match c with CallAdd n => Some n | _ => None end) cs.

(** The number of chunks the loader and splitter make of a batch. *)
Definition chunk_count `{Platform} (batch : list SitemapEntry) : nat :=
  match load_and_split batch with
  | Ok documents => length documents
  | Raise _ => 0
  end.

Definition loads_well `{Platform} (batch : list SitemapEntry) : Prop :=
  ∃ documents, load_and_split batch = Ok documents.

(** The world after a batch has been added. *)
Definition after_batch `{Platform} (w : World) (batch : list SitemapEntry)
    (documents : list Document) : World :=
  {| store := foldl (λ s d, <[new_id s := d]> s) (store w) documents;
     search_fault := search_fault w;
     calls := calls w ++ [CallCount; CallLoad batch; CallAdd (length documents)] |}.

(** The configured batch size. *)
Definition batch_size_of `{Platform} (config : option RunnableConfig) : Z :=
  load_documents_batch_size (from_runnable_config config).

Definition entry_b : SitemapEntry := {| url := "b"; lastmod := 20240101 |}.
Definition entry_c : SitemapEntry := {| url := "c"; lastmod := 20240101 |}.

(** Chunk [doc] carries the url and the date of [entry]. *)
Definition stamped `{Platform} (doc : Document) (entry : SitemapEntry) : Prop :=
  metadata doc !! "source" = Some (url entry)
  ∧ ∃ lm, metadata doc !! "lastmod" = Some lm ∧ fromisoformat lm = Some (lastmod entry).

(** What the spec asks of the loader and splitter, for batches of the
    entries [entries]: the chunks of a batch are stamped with the url and
    date of an entry of the batch, and every entry of the batch gets at least
    one chunk. *)
Definition stamps_every_entry `{Platform} (entries : list SitemapEntry) : Prop :=
  ∀ batch documents,
    (∀ entry, entry ∈ batch → entry ∈ entries) →
    load_and_split batch = Ok documents →
    (∀ doc, doc ∈ documents → ∃ entry, entry ∈ batch ∧ stamped doc entry)
    ∧ (∀ entry, entry ∈ batch → ∃ doc, doc ∈ documents ∧ stamped doc entry).

(** The entries of one url agree on the date. *)
Definition one_date_per_sitemap_url (entries : list SitemapEntry) : Prop :=
  ∀ e1 e2, e1 ∈ entries → e2 ∈ entries → url e1 = url e2 → lastmod e1 = lastmod e2.

(** Store [s1] is store [s] with chunks added for the entries [es]. *)
Definition extended_for `{Platform} (s s1 : gmap string Document)
    (es : list SitemapEntry) : Prop :=
  (∀ i doc, s !! i = Some doc → s1 !! i = Some doc)
  ∧ (∀ i doc, s1 !! i = Some doc →
              s !! i = Some doc ∨ ∃ entry, entry ∈ es ∧ stamped doc entry)
  ∧ (∀ entry, entry ∈ es → ∃ i doc, s1 !! i = Some doc ∧ stamped doc entry).

(** The reference platform with a loader that makes no chunk of any page
    (pages without text). *)
Definition blank_platform : Platform :=
  {| fromisoformat := date_fromisoformat;
     set_iter := remove_dups;
     set_iter_perm := λ l, reflexivity (remove_dups l);
     load_and_split := λ batch, Ok [];
     new_id := least_id;
     new_id_fresh := least_id_fresh;
     default_batch_size := 10 |}.

(** Idempotence as C4 states it, for one sitemap, configuration, recursion
    limit and initial world: when the graph completes, a second
    reconciliation of the same sitemap finds nothing to index and nothing to
    delete. *)
Definition second_run_is_empty (P : Platform) (limit : nat) (state : LoaderState)
    (config : option RunnableConfig) (w : World) : Prop :=
  ∀ final w1,
    loader_graph limit state config w = (Ok final, w1) →
    ∃ state2 w2,
      filter_sitemap_entries state config w1 = (Ok state2, w2)
      ∧ to_index state2 = [] ∧ to_delete w2 = [].

(** The world that a run of the graph leaves. *)
Definition after_graph (P : Platform) (limit : nat) (state : LoaderState)
    (config : option RunnableConfig) (w : World) : World :=
  (loader_graph limit state config w).2.

(** Sample worlds. *)
Definition world_b : World := world_of {[ "x" := record "b" "2024-01-01" ]}.

Definition world_jan : World := world_of {[ "x" := record "a" "2024-01-01" ]}.

Definition world_ab : World :=
  world_of {[ "x" := record "a" "2024-01-01"; "z" := record "b" "2023-06-01" ]}.

(** A store with a record whose date cannot be read. *)
Definition world_bad_date : World :=
  world_of {[ "x" := record "a" "2024-01-01"; "q" := record "b" "yesterday" ]}.

(** The calls of the reconciliation, and the calls of the batch loop. *)
Definition is_reconciliation_call (c : call) : bool :=
  match c with
  | CallCount | CallSearch _ _ | CallDelete _ => true
  | _ => false
  end.

Definition is_indexing_call (c : call) : bool :=
  match c with
  | CallCount | CallLoad _ | CallAdd _ => true
  | _ => false
  end.

(** Sample chats and events: [str.strip] on ASCII white space, a chat in
    which every call succeeds, one whose client refuses every message and
    one whose RAG system raises. *)
Definition is_blank (a : Ascii.ascii) : bool :=
  let n := Ascii.nat_of_ascii a in
  ((9 <=? n) && (n <=? 13)) || (n =? 32).

Fixpoint lstrip (s : string) : string :=
  match s with
  | EmptyString => EmptyString
  | String a rest => if is_blank a then lstrip rest else s
  end.

Definition ascii_strip (s : string) : string :=
  String.rev (lstrip (String.rev (lstrip s))).

Definition sample_result : gmap string string :=
  {[ "url" := "https://blog/post"; "summary" := "A post"; "response" := "Read it";
     "score" := "0.9" ]}.

Definition friendly_chat : Chat :=
  {| strip := ascii_strip;
     ack := Done ();
     say := λ _, Done ();
     chat_postMessage := λ _, Done ();
     get_answer := λ _, Done [sample_result] |}.

Definition refusing_chat : Chat :=
  {| strip := ascii_strip;
     ack := Done ();
     say := λ _, Done ();
     chat_postMessage := λ _, Failed (SlackApiError "channel_not_found");
     get_answer := λ _, Done [sample_result] |}.

Definition failing_rag_chat : Chat :=
  {| strip := ascii_strip;
     ack := Done ();
     say := λ _, Done ();
     chat_postMessage := λ _, Done ();
     get_answer := λ _, Failed (Std (ValueError "Index is empty.")) |}.

Definition dm_event : gmap string json :=
  {[ "channel_type" := JStr "im"; "channel" := JStr "D1"; "user" := JStr "U1";
     "text" := JStr " hello " ]}.

Definition bot_event : gmap string json :=
  {[ "channel_type" := JStr "im"; "channel" := JStr "D1"; "bot_id" := JStr "B1" ]}.

(** No [Said] among the actions. *)
Definition is_said (a : action) : bool :=
  match a with
  | Said _ => true
  | _ => false
  end.

(** What the handler says for an error, and what it posts for the results
    of the RAG system. *)
Definition error_text (e : raised) : string :=
  match e with
  | Std (ValueError msg) => msg
  | _ => "An unexpected error occurred. Please try again later."
  end.

Definition answer_of (results : list (gmap string string)) : content :=
  match results with
  | [] => Text "No relevant information found for your query."
  | _ :: _ => Blocks (build_slack_message_blocks results)
  end.

(** An event that passes [_is_valid_event] and names its channel. *)
Definition question `{Chat} (event : gmap string json) (c : json) (s : string) : Prop :=
  direct_channel event = true
  ∧ truthy (event !! "bot_id") = false
  ∧ default (JStr "") (event !! "text") = JStr s
  ∧ strip s ≠ ""
  ∧ event !! "channel" = Some c.

(** * Properties *)

(** ** The two loops of the reconciliation *)

Example flag_demo :
  vector_flag {| url := "a"; lastmod := 2 |} [("b", 5%Z); ("a", 1%Z); ("a", 3%Z)] = 2.
Proof. reflexivity. Qed.

Lemma append_ids_app entry metadata_list delete_ids :
  append_ids entry metadata_list delete_ids
  = delete_ids ++ ids_of (url entry) metadata_list.
Proof.
  unfold append_ids, ids_of. revert delete_ids.
  induction metadata_list as [|m l IH]; intros ids; simpl.
  - by rewrite app_nil_r.
  - rewrite filter_cons. destruct (decide (md_source m = url entry)).
    + rewrite IH. simpl. by rewrite <- app_assoc.
    + apply IH.
Qed.

Lemma vector_flag_cases entry db_entries :
  vector_flag entry db_entries = 0 ∨ vector_flag entry db_entries = 1
  ∨ vector_flag entry db_entries = 2.
Proof.
  induction db_entries as [|[u t] db IH]; simpl; [by left|].
  repeat case_decide; auto.
Qed.

(** The flag is decided by the first pair of the entry's url. *)
Lemma vector_flag_first entry db_entries :
  match list_find (λ p, p.1 = url entry) db_entries with
  | None => vector_flag entry db_entries = 0
  | Some (_, (_, t)) =>
      vector_flag entry db_entries = if decide (lastmod entry ≤ t)%Z then 1 else 2
  end.
Proof.
  induction db_entries as [|[u t] db IH]; simpl; [done|].
  destruct (decide (url entry = u)) as [<-|Hne].
  - rewrite decide_True by done. done.
  - rewrite decide_False by (simpl; congruence).
    destruct (list_find _ db) as [[i [u' t']]|]; simpl; done.
Qed.

Lemma vector_flag_0 entry db_entries :
  vector_flag entry db_entries = 0 ↔ ∀ t, (url entry, t) ∉ db_entries.
Proof.
  induction db_entries as [|[u t] db IH]; simpl.
  - split; [intros _ t; apply not_elem_of_nil | done].
  - destruct (decide (url entry = u)) as [<-|Hne].
    + split.
      * case_decide; done.
      * intros Hno. destruct (Hno t). by left.
    + rewrite IH. split; intros Hno t'.
      * rewrite not_elem_of_cons. split; [congruence | apply Hno].
      * specialize (Hno t'). rewrite not_elem_of_cons in Hno. tauto.
Qed.

Lemma vector_flag_1 entry db_entries :
  vector_flag entry db_entries = 1 →
  ∃ t, (url entry, t) ∈ db_entries ∧ (lastmod entry ≤ t)%Z.
Proof.
  induction db_entries as [|[u t] db IH]; simpl; [done|].
  destruct (decide (url entry = u)) as [<-|Hne].
  - case_decide; [|done]. intros _. exists t. split; [by left | done].
  - intros [t' [Hin Hle]]%IH. exists t'. split; [by right | done].
Qed.

Lemma vector_flag_2 entry db_entries :
  vector_flag entry db_entries = 2 →
  ∃ t, (url entry, t) ∈ db_entries ∧ (t < lastmod entry)%Z.
Proof.
  induction db_entries as [|[u t] db IH]; simpl; [done|].
  destruct (decide (url entry = u)) as [<-|Hne].
  - case_decide; [done|]. intros _. exists t. split; [by left | lia].
  - intros [t' [Hin Hle]]%IH. exists t'. split; [by right | done].
Qed.

(** When all pairs of the entry's url carry one date, that date decides. *)
Lemma vector_flag_single entry db_entries L :
  (url entry, L) ∈ db_entries →
  (∀ t, (url entry, t) ∈ db_entries → t = L) →
  vector_flag entry db_entries = if decide (lastmod entry ≤ L)%Z then 1 else 2.
Proof.
  intros Hin Hall.
  destruct (vector_flag_cases entry db_entries) as [H0|[H1|H2]].
  - by destruct (proj1 (vector_flag_0 _ _) H0 L).
  - destruct (vector_flag_1 _ _ H1) as [t [Ht Hle]]. apply Hall in Ht as ->.
    by rewrite decide_True.
  - destruct (vector_flag_2 _ _ H2) as [t [Ht Hlt]]. apply Hall in Ht as ->.
    rewrite decide_False by lia. done.
Qed.

Lemma filter_step_eq metadata_list db_entries acc entry :
  filter_step metadata_list db_entries acc entry
  = (acc.1 ++ (if decide (indexed db_entries entry) then [entry] else []),
     acc.2 ++ stale_ids metadata_list db_entries entry).
Proof.
  unfold filter_step, stale_ids.
  destruct (decide (indexed db_entries entry)) as [Hi|Hi]; unfold indexed in Hi;
    destruct (decide (vector_flag entry db_entries = 2)) as [H2|H2];
    destruct (vector_flag_cases entry db_entries) as [E|[E|E]];
    try congruence; rewrite E; try (destruct Hi; congruence);
    rewrite ?append_ids_app, ?app_nil_r; by destruct acc.
Qed.

Lemma foldl_filter_step metadata_list db_entries entries acc :
  foldl (filter_step metadata_list db_entries) acc entries
  = (acc.1 ++ filter (indexed db_entries) entries,
     acc.2 ++ (entries ≫= stale_ids metadata_list db_entries)).
Proof.
  revert acc. induction entries as [|e es IH]; intros acc; simpl.
  - rewrite !app_nil_r. by destruct acc.
  - rewrite IH, filter_step_eq, filter_cons. simpl.
    destruct (decide (indexed db_entries e)); simpl; by rewrite <- !app_assoc.
Qed.

Lemma filter_loop_eq metadata_list db_entries entries :
  filter_loop metadata_list db_entries entries
  = (filter (indexed db_entries) entries,
     entries ≫= stale_ids metadata_list db_entries).
Proof. unfold filter_loop. by rewrite foldl_filter_step. Qed.

(** ** From the store to the fetched lists *)

Lemma getitem_Ok d key v : getitem d key = Ok v ↔ d !! key = Some v.
Proof. unfold getitem. destruct (d !! key); split; congruence. Qed.

Lemma metadata_list_of_Ok results md :
  metadata_list_of results = Ok md →
  Forall2 (λ r m, md_id m = r.1 ∧ metadata r.2 !! "source" = Some (md_source m)
                  ∧ metadata r.2 !! "lastmod" = Some (md_lastmod m)) results md.
Proof.
  revert md. induction results as [|[i doc] rs IH]; intros md; simpl.
  - intros [= <-]. constructor.
  - destruct (getitem (metadata doc) "source") as [src|] eqn:Hs; simpl; [|done].
    destruct (getitem (metadata doc) "lastmod") as [lm|] eqn:Hl; simpl; [|done].
    destruct (metadata_list_of rs) as [tl|]; simpl; [|done].
    intros [= <-]. apply getitem_Ok in Hs, Hl. constructor; simpl; auto.
Qed.

Lemma metadata_list_of_total results :
  (∀ r, r ∈ results → is_Some (metadata r.2 !! "source")
                      ∧ is_Some (metadata r.2 !! "lastmod")) →
  ∃ md, metadata_list_of results = Ok md.
Proof.
  induction results as [|[i doc] rs IH]; intros Hall; simpl; [by eexists|].
  destruct (Hall (i, doc)) as [[src Hs] [lm Hl]]; [by left|]. simpl in *.
  unfold getitem. rewrite Hs, Hl. simpl.
  destruct IH as [tl ->]; [intros r Hr; apply Hall; by right|].
  simpl. by eexists.
Qed.

Section fetch.
Context `{Platform}.

Lemma db_pairs_Ok md pairs :
  db_pairs md = Ok pairs →
  Forall2 (λ m p, p.1 = md_source m ∧ fromisoformat (md_lastmod m) = Some p.2) md pairs.
Proof.
  revert pairs. induction md as [|m ms IH]; intros pairs; simpl.
  - intros [= <-]. constructor.
  - destruct (fromisoformat (md_lastmod m)) as [t|] eqn:Ht; [|done].
    destruct (db_pairs ms) as [tl|]; simpl; [|done].
    intros [= <-]. constructor; simpl; auto.
Qed.

Lemma db_pairs_total md :
  (∀ m, m ∈ md → is_Some (fromisoformat (md_lastmod m))) →
  ∃ pairs, db_pairs md = Ok pairs.
Proof.
  induction md as [|m ms IH]; intros Hall; simpl; [by eexists|].
  destruct (Hall m) as [t ->]; [by left|].
  destruct IH as [tl ->]; [intros m' Hm'; apply Hall; by right|].
  simpl. by eexists.
Qed.

Lemma elem_of_set_iter pairs p : p ∈ set_iter pairs ↔ p ∈ pairs.
Proof. by rewrite (set_iter_perm pairs), elem_of_remove_dups. Qed.

Lemma fetched_ids s md db u i :
  fetched s md db → i ∈ ids_of u md ↔ has_source s i u.
Proof.
  intros (pairs & Hmd%metadata_list_of_Ok & _ & _).
  unfold ids_of, has_source. rewrite list_elem_of_fmap. split.
  - intros (m & -> & [Hsrc Hm]%list_elem_of_filter).
    destruct (proj1 (list_elem_of_lookup _ _) Hm) as [n Hn].
    destruct (Forall2_lookup_r _ _ _ _ _ Hmd Hn) as ([i doc] & Hr & Hid & Hs & _).
    simpl in *. exists doc. split; [|congruence].
    rewrite Hid. apply elem_of_map_to_list. by eapply list_elem_of_lookup_2.
  - intros (doc & Hdoc & Hs). apply elem_of_map_to_list in Hdoc.
    destruct (proj1 (list_elem_of_lookup _ _) Hdoc) as [n Hn].
    destruct (Forall2_lookup_l _ _ _ _ _ Hmd Hn) as (m & Hm & Hid & Hs' & _).
    simpl in *. exists m. split; [done|]. apply list_elem_of_filter.
    split; [congruence | by eapply list_elem_of_lookup_2].
Qed.

Lemma fetched_pairs s md db u t :
  fetched s md db → (u, t) ∈ db ↔ ∃ i, has_record s i u t.
Proof.
  intros (pairs & Hmd%metadata_list_of_Ok & Hp%db_pairs_Ok & ->).
  rewrite elem_of_set_iter. unfold has_record. split.
  - intros Hin. destruct (proj1 (list_elem_of_lookup _ _) Hin) as [n Hn].
    destruct (Forall2_lookup_r _ _ _ _ _ Hp Hn) as (m & Hm & Hu & Ht).
    destruct (Forall2_lookup_r _ _ _ _ _ Hmd Hm) as ([i doc] & Hr & Hid & Hs & Hl).
    simpl in *. exists i, doc, (md_lastmod m). split_and!; try congruence.
    apply elem_of_map_to_list. by eapply list_elem_of_lookup_2.
  - intros (i & doc & lm & Hdoc & Hs & Hl & Ht). apply elem_of_map_to_list in Hdoc.
    destruct (proj1 (list_elem_of_lookup _ _) Hdoc) as [n Hn].
    destruct (Forall2_lookup_l _ _ _ _ _ Hmd Hn) as (m & Hm & Hid & Hs' & Hl').
    destruct (Forall2_lookup_l _ _ _ _ _ Hp Hm) as ([u' t'] & Hq & Hu & Ht').
    simpl in *. apply (list_elem_of_lookup_2 _ n).
    rewrite Hq. f_equal. f_equal; congruence.
Qed.

Lemma well_stamped_fetched s :
  well_stamped s → ∃ md db, fetched s md db.
Proof.
  intros Hws.
  destruct (metadata_list_of_total (map_to_list s)) as [md Hmd].
  { intros [i doc] Hr%elem_of_map_to_list. simpl.
    destruct (Hws _ _ Hr) as [? (lm & -> & _)]. eauto. }
  destruct (db_pairs_total md) as [pairs Hp].
  { intros m Hm. destruct (proj1 (list_elem_of_lookup _ _) Hm) as [n Hn].
    destruct (Forall2_lookup_r _ _ _ _ _ (metadata_list_of_Ok _ _ Hmd) Hn)
      as ([i doc] & Hr & _ & _ & Hl).
    apply list_elem_of_lookup_2, elem_of_map_to_list in Hr.
    destruct (Hws _ _ Hr) as [_ (lm & Hlm & Hiso)]. simpl in *. congruence. }
  exists md, (set_iter pairs), pairs. done.
Qed.
End fetch.

(** ** What a run of [filter_sitemap_entries] does *)

Section filter_node.
Context `{Platform}.

Lemma take_fetch_size w :
  take (fetch_size w) (map_to_list (store w)) = map_to_list (store w).
Proof.
  apply take_ge. rewrite length_map_to_list. unfold fetch_size.
  case_decide; lia.
Qed.

Lemma filter_sitemap_entries_run state config w entries md db :
  sitemap_entries state = Some entries →
  not_config config = false →
  search_fault w = None →
  fetched (store w) md db →
  filter_sitemap_entries state config w
  = (Ok {| sitemap_entries := Some (filter (indexed db) entries);
           documents_count := documents_count state |},
     after_filter w (entries ≫= stale_ids md db)).
Proof.
  intros Hs Hc Hf (pairs & Hmd & Hp & ->).
  unfold filter_sitemap_entries. rewrite Hs, Hc.
  unfold mbind, M_bind, new_manager, try_except, similarity_search, lift; simpl.
  rewrite Hf. fold (fetch_size w). rewrite take_fetch_size, Hmd, Hp.
  rewrite filter_loop_eq. unfold delete_by_ids, mret, M_ret; simpl.
  unfold after_filter, log, set_store; simpl.
  by rewrite <- !app_assoc.
Qed.

Lemma filter_sitemap_entries_inv state config w state' w' :
  filter_sitemap_entries state config w = (Ok state', w') →
  ∃ entries md db,
    sitemap_entries state = Some entries ∧ not_config config = false
    ∧ search_fault w = None ∧ fetched (store w) md db
    ∧ state' = {| sitemap_entries := Some (filter (indexed db) entries);
                  documents_count := documents_count state |}
    ∧ w' = after_filter w (entries ≫= stale_ids md db).
Proof.
  intros Hrun.
  destruct (sitemap_entries state) as [entries|] eqn:Hs;
    [|by unfold filter_sitemap_entries in Hrun; rewrite Hs in Hrun].
  destruct (not_config config) eqn:Hc;
    [by unfold filter_sitemap_entries in Hrun; rewrite Hs, Hc in Hrun|].
  destruct (search_fault w) as [e|] eqn:Hf.
  { unfold filter_sitemap_entries in Hrun. rewrite Hs, Hc in Hrun.
    unfold mbind, M_bind, new_manager, try_except, similarity_search in Hrun.
    simpl in Hrun. by rewrite Hf in Hrun. }
  destruct (metadata_list_of (map_to_list (store w))) as [md|e] eqn:Hmd.
  2:{ unfold filter_sitemap_entries in Hrun. rewrite Hs, Hc in Hrun.
      unfold mbind, M_bind, new_manager, try_except, similarity_search, lift in Hrun.
      simpl in Hrun. rewrite Hf in Hrun. fold (fetch_size w) in Hrun.
      by rewrite take_fetch_size, Hmd in Hrun. }
  destruct (db_pairs md) as [pairs|e] eqn:Hp.
  2:{ unfold filter_sitemap_entries in Hrun. rewrite Hs, Hc in Hrun.
      unfold mbind, M_bind, new_manager, try_except, similarity_search, lift in Hrun.
      simpl in Hrun. rewrite Hf in Hrun. fold (fetch_size w) in Hrun.
      by rewrite take_fetch_size, Hmd, Hp in Hrun. }
  assert (fetched (store w) md (set_iter pairs)) as Hfetched by (by exists pairs).
  rewrite (filter_sitemap_entries_run _ _ _ _ _ _ Hs Hc Hf Hfetched) in Hrun.
  injection Hrun as <- <-. by exists entries, md, (set_iter pairs).
Qed.
End filter_node.

(** ** Entries without a record *)

Lemma set_iter_nil `{Platform} : set_iter [] = [].
Proof. apply Permutation_nil_r. by rewrite (set_iter_perm []). Qed.

Lemma fetched_empty `{Platform} : fetched ∅ [] [].
Proof.
  exists []. rewrite map_to_list_empty. simpl. by rewrite set_iter_nil.
Qed.

Lemma no_source_flag `{Platform} s md db entry :
  fetched s md db →
  (∀ i, ¬ has_source s i (url entry)) →
  vector_flag entry db = 0.
Proof.
  intros Hf Hno. apply vector_flag_0. intros t Hin.
  apply (fetched_pairs _ _ _ _ _ Hf) in Hin as (i & doc & lm & Hdoc & Hs & _).
  apply (Hno i). by exists doc.
Qed.

(** C1: a sitemap entry whose url has no record in the vector store is
    classified New, is appended to [new_entries] (the [to_index] list that the
    node returns) and adds no id to [delete_ids]; on an empty index the
    sitemap [[a]] gives [to_index = [a]] and an empty [to_delete]. *)
Theorem new_entry_is_indexed `{Platform} state config w state' w' entries entry :
  sitemap_entries state = Some entries →
  entry ∈ entries →
  (∀ i, ¬ has_source (store w) i (url entry)) →
  filter_sitemap_entries state config w = (Ok state', w') →
  (∃ md db,
      fetched (store w) md db
      ∧ pending state' = filter (indexed db) entries
      ∧ w' = after_filter w (entries ≫= stale_ids md db)
      ∧ decision entry db = New
      ∧ (∀ acc, filter_step md db acc entry = (acc.1 ++ [entry], acc.2))
      ∧ stale_ids md db entry = []
      ∧ entry ∈ pending state')
  ∧ filter_sitemap_entries
      {| sitemap_entries := Some [entry_a]; documents_count := 0 |} some_config empty_world
    = (Ok {| sitemap_entries := Some [entry_a]; documents_count := 0 |},
       after_filter empty_world []).
Proof.
  intros Hs Hin Hno Hrun. split.
  - apply filter_sitemap_entries_inv in Hrun
      as (entries' & md & db & Hs' & _ & _ & Hf & -> & ->).
    assert (entries' = entries) as -> by congruence.
    pose proof (no_source_flag _ _ _ _ Hf Hno) as H0.
    exists md, db. split_and!; try done.
    + unfold decision. by rewrite H0.
    + intros acc. unfold filter_step. by rewrite H0.
    + unfold stale_ids. rewrite decide_False; [done | lia].
    + simpl. apply list_elem_of_filter. split; [|done]. unfold indexed. lia.
  - rewrite (filter_sitemap_entries_run _ _ _ [entry_a] [] []); try done.
    apply fetched_empty.
Qed.

Lemma new_entry_is_indexed_witness :
  (∃ md db,
      fetched (H := reference_platform) (store world_b) md db
      ∧ pending {| sitemap_entries := Some [entry_a]; documents_count := 0 |}
        = filter (indexed db) [entry_a]
      ∧ after_filter world_b [] = after_filter world_b ([entry_a] ≫= stale_ids md db)
      ∧ decision entry_a db = New
      ∧ (∀ acc, filter_step md db acc entry_a = (acc.1 ++ [entry_a], acc.2))
      ∧ stale_ids md db entry_a = []
      ∧ entry_a ∈ pending {| sitemap_entries := Some [entry_a]; documents_count := 0 |})
  ∧ filter_sitemap_entries (H := reference_platform)
      {| sitemap_entries := Some [entry_a]; documents_count := 0 |} some_config empty_world
    = (Ok {| sitemap_entries := Some [entry_a]; documents_count := 0 |},
       after_filter empty_world []).
Proof.
  apply (new_entry_is_indexed (H := reference_platform)
           {| sitemap_entries := Some [entry_a]; documents_count := 0 |}
           some_config world_b _ _ [entry_a] entry_a).
  - reflexivity.
  - left.
  - intros i (doc & Hdoc & Hsrc). simpl in Hdoc.
    apply lookup_singleton_Some in Hdoc as [_ <-]. vm_compute in Hsrc. discriminate.
  - vm_compute. reflexivity.
Defined.

(** ** Entries with records *)

Lemma to_delete_after_filter w ids : to_delete (after_filter w ids) = ids.
Proof.
  unfold to_delete, after_filter. simpl.
  change (calls w ++ [CallCount; CallSearch "" (fetch_size w); CallDelete ids])
    with (calls w ++ [CallCount; CallSearch "" (fetch_size w)] ++ [CallDelete ids]).
  by rewrite app_assoc, last_snoc.
Qed.

Lemma single_date_flag `{Platform} s md db entry i L :
  fetched s md db →
  has_record s i (url entry) L →
  (∀ j t, has_record s j (url entry) t → t = L) →
  vector_flag entry db = if decide (lastmod entry ≤ L)%Z then 1 else 2.
Proof.
  intros Hf Hrec Hall. apply vector_flag_single.
  - apply (fetched_pairs _ _ _ _ _ Hf). by exists i.
  - intros t [j Hj]%(fetched_pairs _ _ _ _ _ Hf). by eapply Hall.
Qed.

Lemma stale_ids_in_bind md db entries entry i :
  entry ∈ entries → i ∈ stale_ids md db entry → i ∈ entries ≫= stale_ids md db.
Proof. intros ??. apply list_elem_of_bind. eauto. Qed.

(** C2, as the code has it: when the records of the entry's url all carry
    one date [L], an entry with [lastmod <= L] is Unchanged and adds nothing
    to either list, and an entry with [lastmod > L] is Stale: it is appended
    to [to_index] and the id of every record of its url is appended to
    [to_delete]. *)
Theorem single_date_entry_decided `{Platform} state config w state' w' entries entry i L :
  sitemap_entries state = Some entries →
  entry ∈ entries →
  has_record (store w) i (url entry) L →
  (∀ j t, has_record (store w) j (url entry) t → t = L) →
  filter_sitemap_entries state config w = (Ok state', w') →
  ∃ md db,
    fetched (store w) md db
    ∧ to_index state' = filter (indexed db) entries
    ∧ to_delete w' = entries ≫= stale_ids md db
    ∧ ((lastmod entry ≤ L)%Z →
         decision entry db = Unchanged
         ∧ (∀ acc, filter_step md db acc entry = acc)
         ∧ stale_ids md db entry = []
         ∧ entry ∉ to_index state')
    ∧ ((L < lastmod entry)%Z →
         decision entry db = Stale
         ∧ (∀ acc, filter_step md db acc entry
                   = (acc.1 ++ [entry], acc.2 ++ ids_of (url entry) md))
         ∧ entry ∈ to_index state'
         ∧ (∀ j, j ∈ ids_of (url entry) md ↔ has_source (store w) j (url entry))
         ∧ (∀ j, has_source (store w) j (url entry) → j ∈ to_delete w')).
Proof.
  intros Hs Hin Hrec Hall Hrun.
  apply filter_sitemap_entries_inv in Hrun
    as (entries' & md & db & Hs' & _ & _ & Hf & -> & ->).
  assert (entries' = entries) as -> by congruence.
  pose proof (single_date_flag _ _ _ _ _ _ Hf Hrec Hall) as Hflag.
  exists md, db. rewrite to_delete_after_filter.
  set (state' := {| sitemap_entries := Some (filter (indexed db) entries);
                    documents_count := documents_count state |}).
  assert (to_index state' = filter (indexed db) entries) as Hti by done.
  split_and!; try done.
  - intros Hle. rewrite decide_True in Hflag by done. split_and!.
    + unfold decision. by rewrite Hflag.
    + intros acc. unfold filter_step. by rewrite Hflag.
    + unfold stale_ids. rewrite decide_False; [done | lia].
    + rewrite Hti, list_elem_of_filter. unfold indexed. tauto.
  - intros Hlt. rewrite decide_False in Hflag by lia.
    assert (stale_ids md db entry = ids_of (url entry) md) as Hstale.
    { unfold stale_ids. by rewrite decide_True. }
    split_and!.
    + unfold decision. by rewrite Hflag.
    + intros acc. unfold filter_step. by rewrite Hflag, append_ids_app.
    + rewrite Hti, list_elem_of_filter. unfold indexed. split; [lia | done].
    + intros j. by apply fetched_ids with db.
    + intros j Hj. apply stale_ids_in_bind with entry; [done|].
      rewrite Hstale. by apply (fetched_ids _ _ _ _ _ Hf).
Qed.

Lemma two_dates_record_x (P : Platform) :
  @fromisoformat P = date_fromisoformat →
  has_record (store two_dates) "x" "a" 20240101.
Proof. intros Hiso. exists (record "a" "2024-01-01"), "2024-01-01". by rewrite Hiso. Qed.

Lemma two_dates_record_y (P : Platform) :
  @fromisoformat P = date_fromisoformat →
  has_record (store two_dates) "y" "a" 20240301.
Proof. intros Hiso. exists (record "a" "2024-03-01"), "2024-03-01". by rewrite Hiso. Qed.

Example two_dates_insertion_order :
  filter_sitemap_entries (H := reference_platform) (state_of [entry_feb]) some_config two_dates
  = (Ok (state_of []), after_filter two_dates []).
Proof. vm_compute. reflexivity. Qed.

Example two_dates_opposite_order :
  filter_sitemap_entries (H := reversed_platform) (state_of [entry_feb]) some_config two_dates
  = (Ok (state_of [entry_feb]), after_filter two_dates ["y"; "x"]).
Proof. vm_compute. reflexivity. Qed.

(** C2 as stated fails when the records of a url carry two dates: with
    records [x] (2024-01-01) and [y] (2024-03-01) of url [a] and the sitemap
    entry [a] of 2024-02-01, the entry is newer than [x] and not newer than
    [y].  Iterating the set in insertion order meets [y] first and leaves the
    entry out of [to_index]; iterating it the other way meets [x] first and
    puts it in. *)
Lemma two_dates_counterexample :
  ¬ compared_with_every_record reference_platform (state_of [entry_feb]) some_config two_dates
  ∧ ¬ compared_with_every_record reversed_platform (state_of [entry_feb]) some_config two_dates.
Proof.
  split; intros Hclaim.
  - destruct (Hclaim _ _ [entry_feb] entry_feb "x" 20240101%Z eq_refl
                (list_elem_of_here _ _) (two_dates_record_x reference_platform eq_refl)
                two_dates_insertion_order) as [_ Hin].
    specialize (Hin ltac:(simpl; lia)). by apply not_elem_of_nil in Hin.
  - destruct (Hclaim _ _ [entry_feb] entry_feb "y" 20240301%Z eq_refl
                (list_elem_of_here _ _) (two_dates_record_y reversed_platform eq_refl)
                two_dates_opposite_order) as [Hout _].
    apply Hout; [simpl; lia | by left].
Qed.

Lemma world_jan_record i t :
  has_record (H := reference_platform) (store world_jan) i "a" t → i = "x" ∧ t = 20240101%Z.
Proof.
  intros (doc & lm & Hdoc & _ & Hlm & Ht). simpl in Hdoc.
  apply lookup_singleton_Some in Hdoc as [<- <-]. vm_compute in Hlm.
  injection Hlm as <-. vm_compute in Ht. by injection Ht as <-.
Qed.

Lemma single_date_entry_decided_witness :
  ∃ md db,
    fetched (H := reference_platform) (store world_jan) md db
    ∧ to_index (state_of [entry_feb]) = filter (indexed db) [entry_feb]
    ∧ to_delete (after_filter world_jan ["x"]) = [entry_feb] ≫= stale_ids md db
    ∧ ((lastmod entry_feb ≤ 20240101)%Z →
         decision entry_feb db = Unchanged
         ∧ (∀ acc, filter_step md db acc entry_feb = acc)
         ∧ stale_ids md db entry_feb = []
         ∧ entry_feb ∉ to_index (state_of [entry_feb]))
    ∧ ((20240101 < lastmod entry_feb)%Z →
         decision entry_feb db = Stale
         ∧ (∀ acc, filter_step md db acc entry_feb
                   = (acc.1 ++ [entry_feb], acc.2 ++ ids_of (url entry_feb) md))
         ∧ entry_feb ∈ to_index (state_of [entry_feb])
         ∧ (∀ j, j ∈ ids_of (url entry_feb) md ↔ has_source (store world_jan) j (url entry_feb))
         ∧ (∀ j, has_source (store world_jan) j (url entry_feb)
                 → j ∈ to_delete (after_filter world_jan ["x"]))).
Proof.
  apply (single_date_entry_decided (H := reference_platform)
           (state_of [entry_feb]) some_config world_jan _ _ [entry_feb] entry_feb "x").
  - reflexivity.
  - left.
  - exists (record "a" "2024-01-01"), "2024-01-01". split_and!; reflexivity.
  - intros j t Hrec. by destruct (world_jan_record _ _ Hrec).
  - vm_compute. reflexivity.
Defined.

(** ** The store after the reconciliation *)

Lemma has_record_source `{Platform} s i u t : has_record s i u t → has_source s i u.
Proof. intros (doc & lm & ? & ? & _). by exists doc. Qed.

Lemma has_source_after_delete s ids i u :
  has_source (foldr delete s ids) i u ↔ (i ∉ ids) ∧ has_source s i u.
Proof.
  unfold has_source. split.
  - intros (doc & [Hni Hdoc]%lookup_foldr_delete_Some & Hs). split; [done | by exists doc].
  - intros [Hni (doc & Hdoc & Hs)]. exists doc.
    by rewrite lookup_foldr_delete_Some.
Qed.

Lemma has_record_after_delete `{Platform} s ids i u t :
  has_record (foldr delete s ids) i u t ↔ (i ∉ ids) ∧ has_record s i u t.
Proof.
  unfold has_record. split.
  - intros (doc & lm & [Hni Hdoc]%lookup_foldr_delete_Some & Hrest).
    split; [done | by exists doc, lm].
  - intros [Hni (doc & lm & Hdoc & Hrest)]. exists doc, lm.
    by rewrite lookup_foldr_delete_Some.
Qed.

(** In a store that could be fetched every chunk with a url has a date. *)
Lemma fetched_source_record `{Platform} s md db i u :
  fetched s md db → has_source s i u → ∃ t, has_record s i u t.
Proof.
  intros (pairs & Hmd%metadata_list_of_Ok & Hp%db_pairs_Ok & _) (doc & Hdoc & Hsrc).
  pose proof Hdoc as Hel. apply elem_of_map_to_list in Hel.
  destruct (proj1 (list_elem_of_lookup _ _) Hel) as [n Hn].
  destruct (Forall2_lookup_l _ _ _ _ _ Hmd Hn) as (m & Hm & _ & _ & Hl).
  destruct (Forall2_lookup_l _ _ _ _ _ Hp Hm) as ([u' t'] & _ & _ & Ht').
  simpl in *. by exists t', doc, (md_lastmod m).
Qed.

(** Every id that is deleted is an id of a record of the url of an entry
    that the loop found updated. *)
Lemma elem_of_deleted `{Platform} s md db entries i :
  fetched s md db →
  i ∈ entries ≫= stale_ids md db ↔
  ∃ entry, entry ∈ entries ∧ vector_flag entry db = 2 ∧ has_source s i (url entry).
Proof.
  intros Hf. rewrite list_elem_of_bind. unfold stale_ids. split.
  - intros (entry & Hi & Hin). case_decide; [|by apply not_elem_of_nil in Hi].
    exists entry. split_and!; try done. by apply (fetched_ids _ _ _ _ _ Hf).
  - intros (entry & Hin & H2 & Hsrc). exists entry. rewrite decide_True by done.
    split; [|done]. by apply (fetched_ids _ _ _ _ _ Hf).
Qed.

(** C3, as the code has it: when the records of each url carry one date
    before the run, then after the reconciliation and its deletions no record
    of a sitemap url is older than a sitemap entry of that url, the records
    of a url still carry one date, an entry found updated has no record left,
    and every record left is a record of before, unchanged. *)
Theorem no_stale_record_remains `{Platform} state config w state' w' entries :
  sitemap_entries state = Some entries →
  one_date_per_url (store w) →
  filter_sitemap_entries state config w = (Ok state', w') →
  (∀ entry i t, entry ∈ entries → has_record (store w') i (url entry) t →
                (lastmod entry ≤ t)%Z)
  ∧ one_date_per_url (store w')
  ∧ (∀ entry i, entry ∈ to_index state' → ¬ has_source (store w') i (url entry))
  ∧ (∀ i doc, store w' !! i = Some doc → store w !! i = Some doc).
Proof.
  intros Hs Hone Hrun.
  apply filter_sitemap_entries_inv in Hrun
    as (entries' & md & db & Hs' & _ & _ & Hf & -> & ->).
  assert (entries' = entries) as -> by congruence.
  unfold after_filter, to_index; simpl. split_and!.
  - intros entry i t Hin [Hni Hrec]%has_record_after_delete.
    pose proof (single_date_flag _ _ _ _ _ _ Hf Hrec
                  (λ j t' Hj, Hone _ _ _ _ _ Hj Hrec)) as Hflag.
    destruct (decide (lastmod entry ≤ t)%Z) as [|Hgt]; [done|].
    destruct Hni. apply (elem_of_deleted _ _ _ _ _ Hf).
    exists entry. split_and!; try done. by eapply has_record_source.
  - intros u i j t t' [_ Hi]%has_record_after_delete [_ Hj]%has_record_after_delete.
    by eapply Hone.
  - intros entry i [Hidx Hin]%list_elem_of_filter [Hni Hsrc]%has_source_after_delete.
    destruct (vector_flag_cases entry db) as [H0|[H1|H2]].
    + destruct (fetched_source_record _ _ _ _ _ Hf Hsrc) as [t Ht].
      apply (proj1 (vector_flag_0 _ _) H0 t).
      apply (proj2 (fetched_pairs _ _ _ (url entry) t Hf)). by exists i.
    + by destruct Hidx.
    + destruct Hni. apply (elem_of_deleted (store w) md db); [done|].
      by exists entry.
  - intros i doc [_ Hdoc]%lookup_foldr_delete_Some. done.
Qed.

Example world_mar_run (P : Platform) :
  @fromisoformat P = date_fromisoformat →
  filter_sitemap_entries (state_of [entry_feb]) some_config world_mar
  = (Ok (state_of []), after_filter world_mar []).
Proof.
  intros Hiso.
  rewrite (filter_sitemap_entries_run _ _ _ [entry_feb]
             [{| md_id := "x"; md_source := "a"; md_lastmod := "2024-03-01" |}]
             (set_iter [("a", 20240301%Z)])); try done.
  - assert (set_iter [("a", 20240301%Z)] = [("a", 20240301%Z)]) as ->; [|done].
    apply Permutation_singleton_r. by rewrite set_iter_perm.
  - exists [("a", 20240301%Z)]. split_and!; try done.
    simpl. rewrite Hiso. done.
Qed.

(** C3 as stated fails.  With records [x] (2024-01-01) and [y]
    (2024-03-01) of url [a], the sitemap entry [a] of 2024-02-01 and the set
    iterated in insertion order, the reconciliation deletes nothing: [x],
    older than the sitemap, remains, and the url carries two dates.  And
    whatever the iteration order, a single record of 2024-03-01 stays under a
    sitemap entry of 2024-02-01, whose date it does not equal. *)
Lemma stale_record_remains :
  (∃ state' w',
      filter_sitemap_entries (H := reference_platform)
        (state_of [entry_feb]) some_config two_dates = (Ok state', w')
      ∧ has_record (H := reference_platform) (store w') "x" "a" 20240101
      ∧ has_record (H := reference_platform) (store w') "y" "a" 20240301
      ∧ ¬ store_matches_sitemap (H := reference_platform) [entry_feb] (store w'))
  ∧ (∃ state' w',
      filter_sitemap_entries (H := reversed_platform)
        (state_of [entry_feb]) some_config world_mar = (Ok state', w')
      ∧ ¬ store_matches_sitemap (H := reversed_platform) [entry_feb] (store w')).
Proof.
  split.
  - exists (state_of []), (after_filter two_dates []).
    pose proof (two_dates_record_x reference_platform eq_refl) as Hx.
    pose proof (two_dates_record_y reference_platform eq_refl) as Hy.
    split; [apply two_dates_insertion_order|].
    split; [exact Hx|]. split; [exact Hy|].
    intros Hinv. destruct (Hinv "a") as [Hno | (entry & Hin & _ & Hall)].
    + apply (Hno "x"). by eapply has_record_source.
    + apply list_elem_of_singleton in Hin as ->.
      by specialize (Hall "x" 20240101%Z Hx).
  - exists (state_of []), (after_filter world_mar []).
    split; [by apply world_mar_run|].
    assert (has_record (H := reversed_platform) (store world_mar) "x" "a" 20240301) as Hx.
    { by exists (record "a" "2024-03-01"), "2024-03-01". }
    intros Hinv. destruct (Hinv "a") as [Hno | (entry & Hin & _ & Hall)].
    + apply (Hno "x"). by eapply has_record_source.
    + apply list_elem_of_singleton in Hin as ->.
      by specialize (Hall "x" 20240301%Z Hx).
Qed.

Lemma world_jan_one_date : one_date_per_url (H := reference_platform) (store world_jan).
Proof.
  intros u i j t t' Hi Hj.
  assert (u = "a") as ->.
  { destruct Hi as (doc & lm & Hdoc & Hsrc & _). simpl in Hdoc.
    apply lookup_singleton_Some in Hdoc as [_ <-]. vm_compute in Hsrc. congruence. }
  destruct (world_jan_record _ _ Hi) as [_ ->].
  by destruct (world_jan_record _ _ Hj) as [_ ->].
Qed.

Lemma no_stale_record_remains_witness :
  (∀ entry i t, entry ∈ [entry_feb] →
                has_record (H := reference_platform)
                  (store (after_filter world_jan ["x"])) i (url entry) t →
                (lastmod entry ≤ t)%Z)
  ∧ one_date_per_url (H := reference_platform) (store (after_filter world_jan ["x"]))
  ∧ (∀ entry i, entry ∈ to_index (state_of [entry_feb]) →
                ¬ has_source (store (after_filter world_jan ["x"])) i (url entry))
  ∧ (∀ i doc, store (after_filter world_jan ["x"]) !! i = Some doc →
              store world_jan !! i = Some doc).
Proof.
  apply (no_stale_record_remains (H := reference_platform)
           (state_of [entry_feb]) some_config world_jan _ _ [entry_feb]).
  - reflexivity.
  - apply world_jan_one_date.
  - vm_compute. reflexivity.
Defined.

(** ** What is deleted, and what is not *)

(** C9: every id handed to [delete_by_ids] is the id of a stored record of
    the url of a sitemap entry that was found updated (Stale); a record whose
    url does not occur in the sitemap is not in [to_delete] and is still in
    the store, unchanged, after the run. *)
Theorem only_stale_urls_deleted `{Platform} state config w state' w' entries :
  sitemap_entries state = Some entries →
  filter_sitemap_entries state config w = (Ok state', w') →
  ∃ md db,
    fetched (store w) md db
    ∧ (∀ i, i ∈ to_delete w' →
            ∃ entry, entry ∈ entries ∧ decision entry db = Stale
                     ∧ has_source (store w) i (url entry))
    ∧ (∀ i doc u, store w !! i = Some doc →
                  metadata doc !! "source" = Some u →
                  (∀ entry, entry ∈ entries → url entry ≠ u) →
                  (i ∉ to_delete w') ∧ store w' !! i = Some doc).
Proof.
  intros Hs Hrun.
  apply filter_sitemap_entries_inv in Hrun
    as (entries' & md & db & Hs' & _ & _ & Hf & -> & ->).
  assert (entries' = entries) as -> by congruence.
  exists md, db. rewrite to_delete_after_filter. split; [done|]. split.
  - intros i (entry & Hin & H2 & Hsrc)%(elem_of_deleted _ _ _ _ _ Hf).
    exists entry. split_and!; try done. unfold decision. by rewrite H2.
  - intros i doc u Hdoc Hu Habsent.
    assert (i ∉ entries ≫= stale_ids md db) as Hni.
    { intros (entry & Hin & _ & (doc' & Hdoc' & Hsrc))%(elem_of_deleted _ _ _ _ _ Hf).
      apply (Habsent entry Hin). congruence. }
    split; [done|]. simpl. by apply lookup_foldr_delete_Some.
Qed.

Lemma only_stale_urls_deleted_witness :
  ∃ md db,
    fetched (H := reference_platform) (store world_ab) md db
    ∧ (∀ i, i ∈ to_delete (after_filter world_ab ["x"]) →
            ∃ entry, entry ∈ [entry_feb] ∧ decision entry db = Stale
                     ∧ has_source (store world_ab) i (url entry))
    ∧ (∀ i doc u, store world_ab !! i = Some doc →
                  metadata doc !! "source" = Some u →
                  (∀ entry, entry ∈ [entry_feb] → url entry ≠ u) →
                  (i ∉ to_delete (after_filter world_ab ["x"]))
                  ∧ store (after_filter world_ab ["x"]) !! i = Some doc).
Proof.
  apply (only_stale_urls_deleted (H := reference_platform)
           (state_of [entry_feb]) some_config world_ab
           (state_of [entry_feb]) (after_filter world_ab ["x"]) [entry_feb]).
  - reflexivity.
  - vm_compute. reflexivity.
Defined.

(** ** Sitemaps that repeat a url *)

Lemma same_fetch `{Platform} s md db md' db' :
  fetched s md db → fetched s md' db' → md' = md ∧ db' = db.
Proof.
  intros (pairs & Hmd & Hp & ->) (pairs' & Hmd' & Hp' & ->).
  assert (md' = md) as -> by congruence.
  by assert (pairs' = pairs) as -> by congruence.
Qed.

(** C8, as the code has it: the loop does not look for repeated urls.  Each
    entry is classified on its own, so the outputs for a sitemap
    [es1 ++ es2] are the outputs for [es1] followed by the outputs for [es2]:
    an entry of a url that occurs twice is appended to [to_index] for each of
    its occurrences that is New or Stale. *)
Theorem entries_classified_one_by_one `{Platform} config w es1 es2 c state1 w1 state2 w2 :
  filter_sitemap_entries {| sitemap_entries := Some es1; documents_count := c |} config w
    = (Ok state1, w1) →
  filter_sitemap_entries {| sitemap_entries := Some es2; documents_count := c |} config w
    = (Ok state2, w2) →
  ∃ state12 w12,
    filter_sitemap_entries
      {| sitemap_entries := Some (es1 ++ es2); documents_count := c |} config w
    = (Ok state12, w12)
    ∧ to_index state12 = to_index state1 ++ to_index state2
    ∧ to_delete w12 = to_delete w1 ++ to_delete w2.
Proof.
  intros (e1 & md & db & [= <-] & Hc & Hfault & Hf & -> & ->)%filter_sitemap_entries_inv
         (e2 & md' & db' & [= <-] & _ & _ & Hf' & -> & ->)%filter_sitemap_entries_inv.
  destruct (same_fetch _ _ _ _ _ Hf Hf') as [-> ->].
  eexists _, _. split.
  - by apply (filter_sitemap_entries_run _ _ _ (es1 ++ es2) md db).
  - rewrite !to_delete_after_filter. unfold to_index, pending. simpl.
    by rewrite filter_app, bind_app.
Qed.

(** C8 as stated fails: on an empty index the sitemap with the entries [a]
    of 2024-01-01 and [a] of 2024-02-01 puts both into [to_index], where the
    sitemap with the last of them alone puts one. *)
Lemma repeated_url_indexed_twice :
  (filter_sitemap_entries (H := reference_platform)
     (state_of [entry_a; entry_feb]) some_config empty_world).1
  = Ok (state_of [entry_a; entry_feb])
  ∧ (filter_sitemap_entries (H := reference_platform)
       (state_of [entry_feb]) some_config empty_world).1
    = Ok (state_of [entry_feb])
  ∧ url entry_a = url entry_feb
  ∧ to_index (state_of [entry_a; entry_feb]) ≠ to_index (state_of [entry_feb]).
Proof. split_and!; try (vm_compute; reflexivity). discriminate. Qed.

Lemma entries_classified_one_by_one_witness :
  ∃ state12 w12,
    filter_sitemap_entries (H := reference_platform)
      {| sitemap_entries := Some ([entry_a] ++ [entry_feb]); documents_count := 0 |}
      some_config world_jan
    = (Ok state12, w12)
    ∧ to_index state12 = to_index (state_of []) ++ to_index (state_of [entry_feb])
    ∧ to_delete w12 = to_delete (after_filter world_jan [])
                      ++ to_delete (after_filter world_jan ["x"]).
Proof.
  apply (entries_classified_one_by_one (H := reference_platform)
           some_config world_jan [entry_a] [entry_feb] 0).
  - vm_compute. reflexivity.
  - vm_compute. reflexivity.
Defined.

(** ** Failures of the reconciliation *)

Lemma filter_sitemap_entries_fetch_raises `{Platform} state config w entries cause :
  sitemap_entries state = Some entries →
  not_config config = false →
  (search_fault w = Some cause
   ∨ search_fault w = None ∧ metadata_list_of (map_to_list (store w)) = Raise cause) →
  filter_sitemap_entries state config w
  = (Raise (RetrievalError cause),
     {| store := store w; search_fault := search_fault w;
        calls := calls w ++ [CallCount; CallSearch "" (fetch_size w)] |}).
Proof.
  intros Hs Hc Hfail. unfold filter_sitemap_entries. rewrite Hs, Hc.
  unfold mbind, M_bind, new_manager, try_except, similarity_search, lift, raise; simpl.
  fold (fetch_size w). destruct Hfail as [Hf | [Hf Hmd]]; rewrite Hf.
  - unfold log; simpl. by rewrite Hf, <- app_assoc.
  - rewrite take_fetch_size, Hmd. unfold log; simpl. by rewrite Hf, <- app_assoc.
Qed.

(** C6: without a configuration ([None] or an empty dictionary) the node
    raises the configuration error and the world is untouched: no call has
    been made.  When the fetch of the existing records fails, because the
    search raises or because a result lacks a metadata key, the node raises
    the retrieval error that wraps the cause; the store is as it was and no
    [delete_by_ids] call has been issued. *)
Theorem reconciliation_failures `{Platform} state config w entries :
  sitemap_entries state = Some entries →
  (not_config config = true →
     filter_sitemap_entries state config w = (Raise ConfigurationError, w))
  ∧ (∀ cause,
       not_config config = false →
       (search_fault w = Some cause
        ∨ search_fault w = None
          ∧ metadata_list_of (map_to_list (store w)) = Raise cause) →
       ∃ w', filter_sitemap_entries state config w = (Raise (RetrievalError cause), w')
             ∧ store w' = store w
             ∧ deletions (calls w') = deletions (calls w)
             ∧ calls w' = calls w ++ [CallCount; CallSearch "" (fetch_size w)]).
Proof.
  intros Hs. split.
  - intros Hc. unfold filter_sitemap_entries. by rewrite Hs, Hc.
  - intros cause Hc Hfail. eexists. split.
    + by apply filter_sitemap_entries_fetch_raises with entries.
    + simpl. split_and!; try done.
      unfold deletions. rewrite omap_app. simpl. by rewrite app_nil_r.
Qed.

Lemma reconciliation_failures_witness :
  filter_sitemap_entries (H := reference_platform) (state_of [entry_a]) None faulty_world
  = (Raise ConfigurationError, faulty_world)
  ∧ ∃ w', filter_sitemap_entries (H := reference_platform)
            (state_of [entry_a]) some_config faulty_world
          = (Raise (RetrievalError (StoreError "connection refused")), w')
          ∧ store w' = store faulty_world
          ∧ deletions (calls w') = deletions (calls faulty_world)
          ∧ calls w' = calls faulty_world
                       ++ [CallCount; CallSearch "" (fetch_size faulty_world)].
Proof.
  split.
  - apply (proj1 (reconciliation_failures (H := reference_platform)
                    (state_of [entry_a]) None faulty_world [entry_a] eq_refl)).
    reflexivity.
  - apply (proj2 (reconciliation_failures (H := reference_platform)
                    (state_of [entry_a]) some_config faulty_world [entry_a] eq_refl)).
    + reflexivity.
    + left. reflexivity.
Defined.

Example fetch_failure_run :
  filter_sitemap_entries (H := reference_platform) (state_of [entry_feb]) some_config faulty_world
  = (Raise (RuntimeError "Failed to retrieve documents: connection refused"),
     {| store := store faulty_world; search_fault := search_fault faulty_world;
        calls := [CallCount; CallSearch "" 1] |}).
Proof. vm_compute. reflexivity. Qed.

(** ** The batch loop *)

Lemma batches_upto_enough {A} (n m b : nat) (q : list A) :
  1 ≤ b → length q ≤ n → length q ≤ m → batches_upto n b q = batches_upto m b q.
Proof.
  intros Hb. revert m q. induction n as [|n IH]; intros m q Hn Hm.
  - destruct q; [|simpl in Hn; lia]. by destruct m.
  - destruct q as [|x q]; [by destruct m|].
    destruct m as [|m]; [simpl in Hm; lia|]. simpl. f_equal.
    destruct b as [|b]; [lia|]. simpl in *.
    apply IH; rewrite length_drop; lia.
Qed.

Lemma batches_nil {A} (b : nat) : batches b (@nil A) = [].
Proof. done. Qed.

Lemma batches_cons {A} (b : nat) (x : A) (q : list A) :
  1 ≤ b → batches b (x :: q) = take b (x :: q) :: batches b (drop b (x :: q)).
Proof.
  intros Hb. unfold batches. simpl. f_equal.
  destruct b as [|b]; [lia|]. simpl.
  apply batches_upto_enough; rewrite ?length_drop; lia.
Qed.

(** An induction on the queue that follows the batches. *)
Lemma batch_ind {A} (b : nat) (P : list A → Prop) :
  1 ≤ b →
  P [] →
  (∀ x q, P (drop b (x :: q)) → P (x :: q)) →
  ∀ q, P q.
Proof.
  intros Hb Hnil Hcons q.
  assert (∀ n (l : list A), length l ≤ n → P l) as Hall; [|by apply (Hall (length q))].
  induction n as [|n IH]; intros [|x l] Hlen; try done; [simpl in Hlen; lia|].
  apply Hcons, IH. destruct b as [|b]; [lia|]. simpl in *.
  rewrite length_drop. lia.
Qed.

Lemma batches_concat {A} (b : nat) (q : list A) : 1 ≤ b → concat (batches b q) = q.
Proof.
  intros Hb. revert q. apply (batch_ind b); [done|done|]. intros x q IH.
  rewrite batches_cons by done. simpl concat. rewrite IH. apply take_drop.
Qed.

Lemma batches_sizes {A} (b : nat) (q : list A) :
  1 ≤ b → Forall (λ batch, 1 ≤ length batch ≤ b) (batches b q).
Proof.
  intros Hb. revert q. apply (batch_ind b); [done|by constructor|]. intros x q IH.
  rewrite batches_cons by done. constructor; [|done].
  rewrite length_take. simpl. lia.
Qed.

(** All batches but the last are full. *)
Lemma batches_full {A} (b : nat) (q : list A) i batch :
  1 ≤ b → batches b q !! i = Some batch → S i < length (batches b q) → length batch = b.
Proof.
  intros Hb. revert q i. apply (batch_ind b (λ q, ∀ i, _ → _ → _)); [done|done|].
  intros x q IH i. rewrite batches_cons by done. destruct i as [|i]; simpl.
  - intros [= <-] Hlen. rewrite length_take.
    destruct (drop b (x :: q)) as [|y r] eqn:Hd; [simpl in Hlen; lia|].
    assert (length (drop b (x :: q)) = S (length r)) as Hl by (by rewrite Hd).
    rewrite length_drop in Hl. lia.
  - intros Hi Hlen. apply (IH i); [done | lia].
Qed.

Lemma batches_length {A} (b : nat) (q : list A) :
  1 ≤ b → length (batches b q) = (length q + b - 1) `div` b.
Proof.
  intros Hb. revert q. apply (batch_ind b); [done| |].
  - simpl. symmetry. apply Nat.div_small. lia.
  - intros x q IH.
    rewrite batches_cons by done. simpl length at 1. rewrite IH, length_drop.
    destruct (decide (length (x :: q) ≤ b)) as [Hle|Hgt].
    + replace (length (x :: q) - b) with 0 by lia.
      rewrite (Nat.div_small (0 + b - 1)) by lia.
      assert (length (x :: q) + b - 1 = (length (x :: q) - 1) + 1 * b) as -> by (simpl; lia).
      rewrite Nat.div_add by lia. rewrite Nat.div_small; [done | simpl in *; lia].
    + assert (length (x :: q) + b - 1 = (length (x :: q) - b + b - 1) + 1 * b) as -> by lia.
      rewrite Nat.div_add by lia. lia.
Qed.

Example batches_of_three :
  batches 2 ["a"; "b"; "c"] = [["a"; "b"]; ["c"]].
Proof. reflexivity. Qed.

Lemma added_size `{Platform} (documents : list Document) (s : gmap string Document) :
  size (foldl (λ s d, <[new_id s := d]> s) s documents) = size s + length documents.
Proof.
  revert s. induction documents as [|d ds IH]; intros s; simpl; [lia|].
  rewrite IH, map_size_insert_None by apply new_id_fresh. lia.
Qed.

Section batch_loop_runs.
Context `{Platform} (config : option RunnableConfig) (B : Z).
Hypothesis Hconfig : not_config config = false.
Hypothesis Hsize : batch_size_of config = B.
Hypothesis Hpos : (1 ≤ B)%Z.

Let b : nat := Z.to_nat B.

Lemma slice_positive {A} (l : list A) :
  slice_to B l = take b l ∧ slice_from B l = drop b l.
Proof. unfold slice_to, slice_from. by rewrite !decide_True by lia. Qed.

Lemma b_positive : 1 ≤ b.
Proof. unfold b. lia. Qed.

Lemma create_documents_empty state w :
  pending state = [] →
  create_documents state config w
  = (Ok {| sitemap_entries := sitemap_entries state; documents_count := 0 |}, w).
Proof. intros Hq. unfold create_documents. by rewrite Hconfig, Hq. Qed.

Lemma create_documents_step state w x q documents :
  pending state = x :: q →
  load_and_split (take b (x :: q)) = Ok documents →
  create_documents state config w
  = (Ok {| sitemap_entries := Some (drop b (x :: q));
           documents_count := (documents_count state + Z.of_nat (length documents))%Z |},
     after_batch w (take b (x :: q)) documents).
Proof.
  intros Hq Hload. unfold create_documents. rewrite Hconfig, Hq.
  fold (batch_size_of config). rewrite Hsize.
  destruct (slice_positive (x :: q)) as [-> ->].
  unfold mbind, M_bind, new_manager, load, add_documents, mret, M_ret; simpl.
  rewrite Hload. unfold after_batch, log, set_store; simpl.
  by rewrite <- !app_assoc.
Qed.

Lemma create_documents_load_raises state w x q e :
  pending state = x :: q →
  load_and_split (take b (x :: q)) = Raise e →
  create_documents state config w
  = (Raise e, {| store := store w; search_fault := search_fault w;
                 calls := calls w ++ [CallCount; CallLoad (take b (x :: q))] |}).
Proof.
  intros Hq Hload. unfold create_documents. rewrite Hconfig, Hq.
  fold (batch_size_of config). rewrite Hsize.
  destruct (slice_positive (x :: q)) as [-> ->].
  unfold mbind, M_bind, new_manager, load, add_documents, mret, M_ret; simpl.
  rewrite Hload. unfold log; simpl. by rewrite <- !app_assoc.
Qed.

Lemma check_next_batch_end state :
  check_next_batch state = goto_end ↔ pending state = [].
Proof. unfold check_next_batch. by destruct (pending state). Qed.

Lemma loads_after_batch w batch documents :
  loads (calls (after_batch w batch documents)) = loads (calls w) ++ [batch].
Proof. unfold loads. simpl. by rewrite omap_app. Qed.

Lemma adds_after_batch w batch documents :
  adds (calls (after_batch w batch documents)) = adds (calls w) ++ [length documents].
Proof. unfold adds. simpl. by rewrite omap_app. Qed.

(** The loop on a queue all of whose batches load. *)
Lemma batch_loop_drains limit state w :
  1 ≤ limit →
  length (batches b (pending state)) ≤ limit →
  Forall loads_well (batches b (pending state)) →
  ∃ final w',
    batch_loop limit state config w = (Ok final, w')
    ∧ pending final = []
    ∧ loads (calls w') = loads (calls w) ++ batches b (pending state)
    ∧ adds (calls w') = adds (calls w) ++ (chunk_count <$> batches b (pending state))
    ∧ documents_count final
      = match pending state with
        | [] => 0%Z
        | _ :: _ => (documents_count state
                     + Z.of_nat (sum_list (chunk_count <$> batches b (pending state))))%Z
        end.
Proof.
  revert state w. induction limit as [|limit IH]; intros state w Hl Hlen Hload; [lia|].
  destruct (pending state) as [|x q] eqn:Hq.
  - exists {| sitemap_entries := sitemap_entries state; documents_count := 0 |}, w.
    simpl. unfold mbind, M_bind. rewrite (create_documents_empty _ _ Hq).
    unfold check_next_batch, pending in *. simpl. rewrite Hq.
    rewrite batches_nil. simpl. by rewrite !app_nil_r.
  - rewrite (batches_cons b x q b_positive) in *.
    apply Forall_cons in Hload as [[documents Hdocs] Hrest].
    set (state1 := {| sitemap_entries := Some (drop b (x :: q));
                      documents_count :=
                        (documents_count state + Z.of_nat (length documents))%Z |}).
    set (w1 := after_batch w (take b (x :: q)) documents).
    assert (chunk_count (take b (x :: q)) = length documents) as Hcount.
    { unfold chunk_count. by rewrite Hdocs. }
    simpl batch_loop. unfold mbind, M_bind.
    rewrite (create_documents_step _ _ _ _ _ Hq Hdocs). fold state1 w1.
    destruct (drop b (x :: q)) as [|y r] eqn:Hdrop.
    + exists state1, w1. rewrite batches_nil. split_and!; try done.
      * unfold w1. by rewrite loads_after_batch.
      * unfold w1. by rewrite adds_after_batch, <- Hcount.
      * subst state1. rewrite fmap_cons, Hcount. simpl. lia.
    + assert (pending state1 = y :: r) as Hq1 by done.
      destruct (IH state1 w1) as (final & w' & Hrun & Hfin & Hloads & Hadds & Hcnt).
      { rewrite (batches_cons b y r b_positive) in Hlen. simpl in Hlen. lia. }
      { rewrite Hq1. change (S (length (batches b (y :: r))) ≤ S limit) in Hlen. lia. }
      { by rewrite Hq1. }
      exists final, w'. unfold check_next_batch. rewrite Hq1.
      rewrite Hq1 in Hloads, Hadds, Hcnt.
      split_and!; try done.
      * rewrite Hloads. unfold w1. rewrite loads_after_batch.
        by rewrite <- app_assoc.
      * rewrite Hadds. unfold w1. rewrite adds_after_batch, fmap_cons, Hcount.
        by rewrite <- app_assoc.
      * rewrite Hcnt. subst state1. rewrite fmap_cons, Hcount. simpl. lia.
Qed.

(** The loop on any queue: it ends, with the queue drained or with the
    error the loader raised on one of the batches. *)
Lemma batch_loop_stops limit state w :
  1 ≤ limit →
  length (batches b (pending state)) ≤ limit →
  ∃ r w',
    batch_loop limit state config w = (r, w')
    ∧ ((∃ final, r = Ok final ∧ pending final = [])
       ∨ (∃ e batch, r = Raise e ∧ batch ∈ batches b (pending state)
                     ∧ load_and_split batch = Raise e)).
Proof.
  revert state w. induction limit as [|limit IH]; intros state w Hl Hlen; [lia|].
  destruct (pending state) as [|x q] eqn:Hq.
  - eexists _, w. simpl. unfold mbind, M_bind. rewrite (create_documents_empty _ _ Hq).
    unfold check_next_batch, pending in *. simpl. rewrite Hq.
    split; [done|]. left. eexists. split; [done|]. done.
  - rewrite (batches_cons b x q b_positive) in *.
    simpl batch_loop. unfold mbind, M_bind.
    destruct (load_and_split (take b (x :: q))) as [documents|e] eqn:Hdocs.
    2:{ rewrite (create_documents_load_raises _ _ _ _ _ Hq Hdocs).
        eexists _, _. split; [done|]. right. exists e, (take b (x :: q)).
        split_and!; try done. by left. }
    rewrite (create_documents_step _ _ _ _ _ Hq Hdocs).
    set (state1 := {| sitemap_entries := Some (drop b (x :: q));
                      documents_count :=
                        (documents_count state + Z.of_nat (length documents))%Z |}).
    set (w1 := after_batch w (take b (x :: q)) documents).
    destruct (drop b (x :: q)) as [|y r] eqn:Hdrop.
    + exists (Ok state1), w1. split; [done|]. left. by exists state1.
    + assert (pending state1 = y :: r) as Hq1 by done.
      destruct (IH state1 w1) as (res & w' & Hrun & Hres).
      { rewrite (batches_cons b y r b_positive) in Hlen. simpl in Hlen. lia. }
      { rewrite Hq1. change (S (length (batches b (y :: r))) ≤ S limit) in Hlen. lia. }
      exists res, w'. unfold check_next_batch. rewrite Hq1. split; [done|].
      destruct Hres as [Hok | (e & batch & -> & Hin & Hraise)]; [by left|].
      right. exists e, batch. rewrite Hq1 in Hin. split_and!; try done. by right.
Qed.

Lemma create_documents_shrinks state w state' w' :
  pending state ≠ [] →
  create_documents state config w = (Ok state', w') →
  pending state' = drop b (pending state)
  ∧ length (pending state') < length (pending state).
Proof.
  intros Hne Hrun. destruct (pending state) as [|x q] eqn:Hq; [done|].
  destruct (load_and_split (take b (x :: q))) as [documents|e] eqn:Hdocs.
  - rewrite (create_documents_step _ _ _ _ _ Hq Hdocs) in Hrun.
    injection Hrun as <- <-. split; [done|].
    unfold pending at 1. simpl sitemap_entries. cbn [default from_option id].
    rewrite length_drop. pose proof b_positive. simpl. lia.
  - by rewrite (create_documents_load_raises _ _ _ _ _ Hq Hdocs) in Hrun.
Qed.
End batch_loop_runs.

Lemma batches_lookup {A} (b : nat) (q : list A) i batch :
  1 ≤ b → batches b q !! i = Some batch → batch = take b (drop (i * b) q).
Proof.
  intros Hb. revert q i batch.
  apply (batch_ind b (λ q, ∀ i batch, _ → _)); [done|done|].
  intros x q IH i batch. rewrite batches_cons by done. destruct i as [|i]; simpl.
  - by intros [= <-].
  - intros Hi. rewrite (IH i batch Hi), drop_drop.
    destruct b as [|b']; [lia|]. done.
Qed.

(** C5: with a batch size [B >= 1], a loader that loads every batch, and a
    recursion limit that allows it, the loop on a queue of [N] entries hands
    the loader exactly the [ceil(N/B)] batches of the queue, batch [i] being
    the [B] entries (or fewer, for the last) that follow the first [i * B];
    each visit of [create_documents] with a non-empty queue adds the chunks
    of its batch to the store and their number to [documents_count], so that
    the count never decreases. *)
Theorem batch_loop_iterations `{Platform} config B state w limit :
  not_config config = false →
  batch_size_of config = B →
  (1 ≤ B)%Z →
  Forall loads_well (batches (Z.to_nat B) (pending state)) →
  1 ≤ limit →
  (length (pending state) + Z.to_nat B - 1) `div` Z.to_nat B ≤ limit →
  ∃ final w',
    batch_loop limit state config w = (Ok final, w')
    ∧ pending final = []
    ∧ loads (calls w') = loads (calls w) ++ batches (Z.to_nat B) (pending state)
    ∧ length (batches (Z.to_nat B) (pending state))
      = (length (pending state) + Z.to_nat B - 1) `div` Z.to_nat B
    ∧ (∀ i batch, batches (Z.to_nat B) (pending state) !! i = Some batch →
                  batch = take (Z.to_nat B) (drop (i * Z.to_nat B) (pending state))
                  ∧ 1 ≤ length batch ≤ Z.to_nat B
                  ∧ (S i < length (batches (Z.to_nat B) (pending state)) →
                     length batch = Z.to_nat B))
    ∧ concat (batches (Z.to_nat B) (pending state)) = pending state
    ∧ adds (calls w')
      = adds (calls w) ++ (chunk_count <$> batches (Z.to_nat B) (pending state))
    ∧ (pending state ≠ [] →
       documents_count final
       = (documents_count state
          + Z.of_nat (sum_list (chunk_count <$> batches (Z.to_nat B) (pending state))))%Z)
    ∧ (∀ s w0, pending s ≠ [] → loads_well (take (Z.to_nat B) (pending s)) →
         ∃ s' w1,
           create_documents s config w0 = (Ok s', w1)
           ∧ pending s' = drop (Z.to_nat B) (pending s)
           ∧ adds (calls w1)
             = adds (calls w0) ++ [chunk_count (take (Z.to_nat B) (pending s))]
           ∧ size (store w1)
             = size (store w0) + chunk_count (take (Z.to_nat B) (pending s))
           ∧ documents_count s'
             = (documents_count s
                + Z.of_nat (chunk_count (take (Z.to_nat B) (pending s))))%Z
           ∧ (documents_count s ≤ documents_count s')%Z).
Proof.
  intros Hc HB Hpos Hload Hl Hlimit.
  assert (1 ≤ Z.to_nat B) as Hb by lia.
  rewrite <- batches_length in Hlimit by done.
  destruct (batch_loop_drains config B Hc HB Hpos limit state w Hl Hlimit Hload)
    as (final & w' & Hrun & Hfin & Hloads & Hadds & Hcnt).
  exists final, w'. split_and!; try done.
  - by apply batches_length.
  - intros i batch Hi. split; [|split].
    + by apply batches_lookup.
    + pose proof (batches_sizes (Z.to_nat B) (pending state) Hb) as Hall.
      rewrite Forall_lookup in Hall. by apply (Hall i).
    + intros Hlt. by apply (batches_full (Z.to_nat B) (pending state) i batch).
  - by apply batches_concat.
  - intros Hne. by destruct (pending state).
  - intros s w0 Hne [documents Hdocs].
    destruct (pending s) as [|x q] eqn:Hq; [done|].
    assert (chunk_count (take (Z.to_nat B) (x :: q)) = length documents) as Hcount.
    { unfold chunk_count. by rewrite Hdocs. }
    eexists _, _. split.
    + by apply (create_documents_step config B Hc HB Hpos s w0 x q documents).
    + rewrite adds_after_batch, Hcount. split_and!; try done.
      * unfold after_batch. simpl. apply added_size.
      * simpl. lia.
Qed.

Lemma batch_loop_iterations_witness :
  ∃ final w',
    batch_loop (H := reference_platform) 2 (state_of [entry_a; entry_b; entry_c])
      (config_with_batch_size 2) empty_world = (Ok final, w')
    ∧ pending final = []
    ∧ loads (calls w') = [[entry_a; entry_b]; [entry_c]]
    ∧ adds (calls w') = [2; 1]
    ∧ documents_count final = 3%Z.
Proof.
  destruct (batch_loop_iterations (H := reference_platform) (config_with_batch_size 2) 2
              (state_of [entry_a; entry_b; entry_c]) empty_world 2)
    as (final & w' & Hrun & Hfin & Hloads & _ & _ & _ & Hadds & Hcnt & _).
  - reflexivity.
  - reflexivity.
  - lia.
  - repeat constructor; by eexists.
  - lia.
  - vm_compute. lia.
  - exists final, w'. split; [exact Hrun|]. split; [exact Hfin|].
    split; [rewrite Hloads; reflexivity|].
    split; [rewrite Hadds; reflexivity|].
    rewrite Hcnt by discriminate. reflexivity.
Defined.

(** C7: with a batch size [B >= 1] the loop ends.  [check_next_batch] sends
    to the end exactly when the queue is empty; a visit of
    [create_documents] with a non-empty queue that returns leaves the queue
    without its first [B] entries, which is strictly shorter; and under a
    recursion limit of at least the number of batches (and at least one, for
    the first visit) the loop returns with the queue drained, or stops with
    the error the loader raised on one of the batches. *)
Theorem batch_loop_terminates `{Platform} config B state w limit :
  not_config config = false →
  batch_size_of config = B →
  (1 ≤ B)%Z →
  1 ≤ limit →
  length (batches (Z.to_nat B) (pending state)) ≤ limit →
  (∀ s, check_next_batch s = goto_end ↔ pending s = [])
  ∧ (∀ s w0 s' w1,
       pending s ≠ [] →
       create_documents s config w0 = (Ok s', w1) →
       pending s' = drop (Z.to_nat B) (pending s)
       ∧ length (pending s') < length (pending s))
  ∧ length (batches (Z.to_nat B) (pending state)) ≤ length (pending state)
  ∧ ∃ r w',
      batch_loop limit state config w = (r, w')
      ∧ ((∃ final, r = Ok final ∧ pending final = [])
         ∨ (∃ e batch, r = Raise e
                       ∧ batch ∈ batches (Z.to_nat B) (pending state)
                       ∧ load_and_split batch = Raise e)).
Proof.
  intros Hc HB Hpos Hl Hlimit. split_and!.
  - apply check_next_batch_end.
  - intros s w0 s' w1. by apply create_documents_shrinks.
  - assert (1 ≤ Z.to_nat B) as Hb by lia.
    rewrite <- (batches_concat (Z.to_nat B) (pending state) Hb) at 2.
    pose proof (batches_sizes (Z.to_nat B) (pending state) Hb) as Hall.
    generalize dependent (batches (Z.to_nat B) (pending state)).
    intros l _ Hall. induction Hall as [|batch l [Hge _] _ IH]; [done|].
    simpl. rewrite length_app. lia.
  - by apply batch_loop_stops.
Qed.

Lemma batch_loop_terminates_witness :
  ∃ r w',
    batch_loop (H := reference_platform) 2 (state_of [entry_a; entry_b; entry_c])
      (config_with_batch_size 2) empty_world = (r, w')
    ∧ ((∃ final, r = Ok final ∧ pending final = [])
       ∨ (∃ e batch, r = Raise e
                     ∧ batch ∈ batches 2 [entry_a; entry_b; entry_c]
                     ∧ load_and_split (Platform := reference_platform) batch = Raise e)).
Proof.
  apply (batch_loop_terminates (H := reference_platform) (config_with_batch_size 2) 2
           (state_of [entry_a; entry_b; entry_c]) empty_world 2).
  - reflexivity.
  - reflexivity.
  - lia.
  - lia.
  - vm_compute. lia.
Defined.

(** ** The Slack message *)

Lemma foldl_blocks (rs : list (gmap string string)) (blocks : list block) :
  foldl (λ blocks r, (blocks ++ [section (result_text r)]) ++ [divider]) blocks rs
  = blocks ++ (rs ≫= λ r, [section (result_text r); divider]).
Proof.
  revert blocks. induction rs as [|r rs IH]; intros blocks; simpl.
  - by rewrite app_nil_r.
  - rewrite IH. by rewrite <- !app_assoc.
Qed.

(** C10: the message starts with the header section and a divider, then
    has one section and one divider for each of the first twenty results, in
    the order given; its length is [2 + 2 * min (length results) 20], and
    the results after the twentieth do not change it. *)
Theorem slack_message_blocks (results : list (gmap string string)) :
  build_slack_message_blocks results
  = [section "*Analysis Results:*"; divider]
    ++ (take 20 results ≫= λ r, [section (result_text r); divider])
  ∧ length (build_slack_message_blocks results) = 2 + 2 * (length results `min` 20)
  ∧ (∀ i r, i < 20 → results !! i = Some r →
            build_slack_message_blocks results !! (2 + 2 * i) = Some (section (result_text r))
            ∧ build_slack_message_blocks results !! (3 + 2 * i) = Some divider)
  ∧ build_slack_message_blocks results = build_slack_message_blocks (take 20 results).
Proof.
  assert (∀ rs : list (gmap string string),
            length (rs ≫= λ r, [section (result_text r); divider]) = 2 * length rs) as Hlen.
  { induction rs as [|r rs IH]; [done|]. rewrite bind_cons, length_app, IH. simpl. lia. }
  assert (build_slack_message_blocks results
          = [section "*Analysis Results:*"; divider]
            ++ (take 20 results ≫= λ r, [section (result_text r); divider])) as Heq.
  { unfold build_slack_message_blocks. apply foldl_blocks. }
  split_and!.
  - done.
  - rewrite Heq, length_app, Hlen, length_take. simpl length. lia.
  - intros i r Hi Hr. rewrite Heq.
    assert (take 20 results !! i = Some r) as Ht by (by rewrite lookup_take_lt).
    clear Heq Hr Hi. revert i Ht. generalize (take 20 results) as rs.
    induction rs as [|r' rs IH]; intros i Hi; [done|].
    destruct i as [|i]; simpl in *.
    + by injection Hi as ->.
    + specialize (IH i Hi). replace (i + S (i + 0)) with (S (2 * i)) by lia.
      simpl. by replace (i + (i + 0)) with (2 * i) by lia.
  - unfold build_slack_message_blocks. by rewrite take_take.
Qed.

(** ** A second run after a complete first run *)

Lemma added_documents `{Platform} (documents : list Document) (s : gmap string Document) :
  (∀ i doc, s !! i = Some doc →
            foldl (λ s d, <[new_id s := d]> s) s documents !! i = Some doc)
  ∧ (∀ i doc, foldl (λ s d, <[new_id s := d]> s) s documents !! i = Some doc →
              s !! i = Some doc ∨ doc ∈ documents)
  ∧ (∀ doc, doc ∈ documents →
            ∃ i, foldl (λ s d, <[new_id s := d]> s) s documents !! i = Some doc).
Proof.
  revert s. induction documents as [|d ds IH]; intros s; simpl.
  - split_and!; [done | by left | by intros doc ?%not_elem_of_nil].
  - destruct (IH (<[new_id s := d]> s)) as (Hkeep & Hnew & Hall). split_and!.
    + intros i doc Hi. apply Hkeep. rewrite lookup_insert_ne; [done|].
      intros <-. by rewrite new_id_fresh in Hi.
    + intros i doc [Hi | Hi]%Hnew; [|right; by right].
      destruct (decide (new_id s = i)) as [<-|Hne].
      * rewrite lookup_insert_eq in Hi. injection Hi as <-. right. by left.
      * rewrite lookup_insert_ne in Hi by done. by left.
    + intros doc [-> | Hin]%elem_of_cons; [|by apply Hall].
      exists (new_id s). apply Hkeep. by rewrite lookup_insert_eq.
Qed.

Lemma extended_for_nil `{Platform} s : extended_for s s [].
Proof.
  split_and!; [done | by left | by intros entry ?%not_elem_of_nil].
Qed.

Lemma extended_for_app `{Platform} s s1 s2 es1 es2 :
  extended_for s s1 es1 → extended_for s1 s2 es2 → extended_for s s2 (es1 ++ es2).
Proof.
  intros (Hk1 & Hn1 & Ha1) (Hk2 & Hn2 & Ha2). split_and!.
  - intros i doc Hi. by apply Hk2, Hk1.
  - intros i doc [Hi | (entry & Hin & Hst)]%Hn2.
    + apply Hn1 in Hi as [Hi | (entry & Hin & Hst)]; [by left|].
      right. exists entry. split; [|done]. apply elem_of_app. by left.
    + right. exists entry. split; [|done]. apply elem_of_app. by right.
  - intros entry [Hin | Hin]%elem_of_app.
    + destruct (Ha1 entry Hin) as (i & doc & Hi & Hst). exists i, doc.
      split; [by apply Hk2 | done].
    + by apply Ha2.
Qed.

Lemma extended_for_batch `{Platform} entries w batch documents :
  stamps_every_entry entries →
  (∀ entry, entry ∈ batch → entry ∈ entries) →
  load_and_split batch = Ok documents →
  extended_for (store w) (store (after_batch w batch documents)) batch.
Proof.
  intros Hstamps Hsub Hload.
  destruct (Hstamps batch documents Hsub Hload) as [Hdocs Hentries].
  destruct (added_documents documents (store w)) as (Hkeep & Hnew & Hall).
  unfold after_batch. simpl. split_and!.
  - done.
  - intros i doc [Hi | Hin]%Hnew; [by left | right; by apply Hdocs].
  - intros entry Hin. destruct (Hentries entry Hin) as (doc & Hdoc & Hst).
    destruct (Hall doc Hdoc) as [i Hi]. by exists i, doc.
Qed.

Section first_run.
Context `{Platform} (config : option RunnableConfig) (B : Z) (entries : list SitemapEntry).
Hypothesis Hconfig : not_config config = false.
Hypothesis Hsize : batch_size_of config = B.
Hypothesis Hpos : (1 ≤ B)%Z.
Hypothesis Hstamps : stamps_every_entry entries.

(** The store after a loop that has completed. *)
Lemma batch_loop_store limit state w final w1 :
  (∀ entry, entry ∈ pending state → entry ∈ entries) →
  batch_loop limit state config w = (Ok final, w1) →
  extended_for (store w) (store w1) (pending state)
  ∧ search_fault w1 = search_fault w.
Proof.
  revert state w. induction limit as [|limit IH]; intros state w Hsub Hrun; [done|].
  simpl in Hrun. unfold mbind, M_bind in Hrun.
  destruct (pending state) as [|x q] eqn:Hq.
  - rewrite (create_documents_empty config Hconfig _ _ Hq) in Hrun.
    unfold check_next_batch, pending in *. simpl in Hrun. rewrite Hq in Hrun.
    injection Hrun as <- <-. split; [apply extended_for_nil | done].
  - destruct (load_and_split (take (Z.to_nat B) (x :: q))) as [documents|e] eqn:Hdocs.
    2:{ by rewrite (create_documents_load_raises config B Hconfig Hsize Hpos
                      _ _ _ _ _ Hq Hdocs) in Hrun. }
    rewrite (create_documents_step config B Hconfig Hsize Hpos _ _ _ _ _ Hq Hdocs) in Hrun.
    assert (∀ entry, entry ∈ take (Z.to_nat B) (x :: q) → entry ∈ entries) as Htake.
    { intros entry Hin. apply Hsub. rewrite <- (take_drop (Z.to_nat B) (x :: q)).
      apply elem_of_app. by left. }
    assert (∀ entry, entry ∈ drop (Z.to_nat B) (x :: q) → entry ∈ entries) as Hdropsub.
    { intros entry Hin. apply Hsub. rewrite <- (take_drop (Z.to_nat B) (x :: q)).
      apply elem_of_app. by right. }
    pose proof (extended_for_batch entries w _ _ Hstamps Htake Hdocs) as Hext.
    rewrite <- (take_drop (Z.to_nat B) (x :: q)).
    set (w0 := after_batch w (take (Z.to_nat B) (x :: q)) documents) in *.
    destruct (drop (Z.to_nat B) (x :: q)) as [|y r] eqn:Hdrop.
    + injection Hrun as <- <-. rewrite app_nil_r. done.
    + apply IH in Hrun as [Hext' Hfault]; [|done]. split; [|done].
      by apply extended_for_app with (store w0).
Qed.
End first_run.

Lemma fetched_well_stamped `{Platform} s md db : fetched s md db → well_stamped s.
Proof.
  intros (pairs & Hmd%metadata_list_of_Ok & Hp%db_pairs_Ok & _) i doc Hdoc.
  apply elem_of_map_to_list in Hdoc.
  destruct (proj1 (list_elem_of_lookup _ _) Hdoc) as [n Hn].
  destruct (Forall2_lookup_l _ _ _ _ _ Hmd Hn) as (m & Hm & _ & Hs & Hl).
  destruct (Forall2_lookup_l _ _ _ _ _ Hp Hm) as ([u' t'] & _ & _ & Ht').
  simpl in *. split; [by eexists|]. exists (md_lastmod m). split; [done | by eexists].
Qed.

Lemma stamped_record `{Platform} s i doc entry :
  s !! i = Some doc → stamped doc entry → has_record s i (url entry) (lastmod entry).
Proof. intros Hi (Hs & lm & Hl & Ht). by exists doc, lm. Qed.

Lemma record_stamped `{Platform} s i doc entry u t :
  s !! i = Some doc → stamped doc entry → has_record s i u t →
  u = url entry ∧ t = lastmod entry.
Proof.
  intros Hi (Hs & lm & Hl & Ht) (doc' & lm' & Hi' & Hs' & Hl' & Ht').
  assert (doc' = doc) as -> by congruence.
  assert (lm' = lm) as -> by congruence. split; congruence.
Qed.

Lemma has_source_agree s i u u' : has_source s i u → has_source s i u' → u = u'.
Proof. intros (doc & Hi & Hs) (doc' & Hi' & Hs'). congruence. Qed.

(** The url of an entry that goes to [to_index] has no record left after
    the deletions. *)
Lemma indexed_url_cleared `{Platform} s md db entries entry i :
  fetched s md db →
  entry ∈ entries →
  indexed db entry →
  ¬ has_source (foldr delete s (entries ≫= stale_ids md db)) i (url entry).
Proof.
  intros Hf Hin Hidx [Hni Hsrc]%has_source_after_delete.
  destruct (vector_flag_cases entry db) as [H0|[H1|H2]].
  - destruct (fetched_source_record _ _ _ _ _ Hf Hsrc) as [t Ht].
    apply (proj1 (vector_flag_0 _ _) H0 t).
    apply (proj2 (fetched_pairs _ _ _ (url entry) t Hf)). by exists i.
  - by destruct Hidx.
  - destruct Hni. apply (elem_of_deleted s md db); [done|]. by exists entry.
Qed.

(** With one date per url in the store and in the sitemap, the entries of
    the url of an unchanged entry are all unchanged. *)
Lemma unchanged_by_url `{Platform} s md db entries e e' :
  fetched s md db →
  one_date_per_url s →
  one_date_per_sitemap_url entries →
  e ∈ entries → e' ∈ entries → url e' = url e →
  vector_flag e db = 1 → vector_flag e' db = 1.
Proof.
  intros Hf Hone Hsitemap Hin Hin' Hurl H1.
  destruct (vector_flag_1 _ _ H1) as (t0 & Hpair & Hle).
  apply (fetched_pairs _ _ _ _ _ Hf) in Hpair as [i0 Hrec].
  rewrite <- Hurl in Hrec.
  rewrite (single_date_flag s md db e' i0 t0 Hf Hrec).
  - rewrite decide_True; [done|]. by rewrite (Hsitemap e' e Hin' Hin Hurl).
  - intros j t Hj. by eapply Hone.
Qed.

(** After a complete first run every sitemap entry is flagged 1 by the
    second fetch. *)
Lemma second_fetch_flags `{Platform} s md db entries s1 md2 db2 entry :
  fetched s md db →
  one_date_per_url s →
  one_date_per_sitemap_url entries →
  extended_for (foldr delete s (entries ≫= stale_ids md db)) s1
               (filter (indexed db) entries) →
  fetched s1 md2 db2 →
  entry ∈ entries →
  vector_flag entry db2 = 1.
Proof.
  intros Hf Hone Hsitemap (Hkeep & Hnew & Hall) Hf2 Hin.
  set (s' := foldr delete s (entries ≫= stale_ids md db)) in *.
  (* where a record of the second store comes from *)
  assert (∀ i u t, has_record s1 i u t →
            ((i ∉ entries ≫= stale_ids md db) ∧ has_record s i u t)
            ∨ ∃ e', e' ∈ entries ∧ indexed db e' ∧ u = url e' ∧ t = lastmod e') as Horigin.
  { intros i u t Hrec. pose proof Hrec as (doc & lm & Hi & _).
    destruct (Hnew i doc Hi) as [Hold | (e' & [Hidx Hin']%list_elem_of_filter & Hst)].
    - left. apply has_record_after_delete. fold s'.
      destruct Hrec as (doc' & lm' & Hi' & Hsrc & Hl & Ht).
      assert (doc' = doc) as -> by congruence. by exists doc, lm'.
    - right. exists e'. destruct (record_stamped _ _ _ _ _ _ Hi Hst Hrec). done. }
  assert ((∃ t, (url entry, t) ∈ db2)
          ∧ ∀ t, (url entry, t) ∈ db2 → (lastmod entry ≤ t)%Z) as [Hex Hge].
  { destruct (decide (vector_flag entry db = 1)) as [H1 | Hidx].
    - (* unchanged in the first run: its record is kept, nothing is added *)
      destruct (vector_flag_1 _ _ H1) as (t0 & Hpair & Hle).
      apply (fetched_pairs _ _ _ _ _ Hf) in Hpair as [i0 Hrec0].
      split.
      + exists t0. apply (fetched_pairs _ _ _ _ _ Hf2). exists i0.
        destruct Hrec0 as (doc & lm & Hi & Hsrc0 & Hl0 & Ht0). exists doc, lm.
        split; [|done]. apply Hkeep. apply lookup_foldr_delete_Some. split; [|done].
        intros (e' & Hin' & H2 & Hsrc)%(elem_of_deleted _ _ _ _ _ Hf).
        assert (url e' = url entry) as Hurl.
        { eapply has_source_agree; [exact Hsrc | by exists doc]. }
        rewrite (unchanged_by_url _ _ _ _ _ _ Hf Hone Hsitemap Hin Hin' Hurl H1) in H2.
        discriminate.
      + intros t [i Hrec]%(fetched_pairs _ _ _ _ _ Hf2).
        destruct (Horigin _ _ _ Hrec) as [[_ Hold] | (e' & Hin' & Hidx & Hurl & ->)].
        * by rewrite (Hone _ _ _ _ _ Hold Hrec0).
        * destruct Hidx.
          by apply (unchanged_by_url _ _ _ _ entry e' Hf Hone Hsitemap).
    - (* indexed in the first run: the old records are gone, new ones carry its date *)
      split.
      + destruct (Hall entry) as (i & doc & Hi & Hst).
        { apply list_elem_of_filter. by split. }
        exists (lastmod entry). apply (fetched_pairs _ _ _ _ _ Hf2). exists i.
        by apply stamped_record with doc.
      + intros t [i Hrec]%(fetched_pairs _ _ _ _ _ Hf2).
        destruct (Horigin _ _ _ Hrec) as [Hold | (e' & Hin' & _ & Hurl & ->)].
        * destruct (indexed_url_cleared s md db entries entry i Hf Hin Hidx).
          apply has_source_after_delete. destruct Hold as [Hni Hold].
          split; [done | by eapply has_record_source].
        * by rewrite (Hsitemap entry e' Hin Hin' Hurl). }
  destruct (vector_flag_cases entry db2) as [H0|[H1|H2]]; [|done|].
  - destruct Hex as [t Ht]. by destruct (proj1 (vector_flag_0 _ _) H0 t).
  - destruct (vector_flag_2 _ _ H2) as (t & Ht & Hlt). specialize (Hge t Ht). lia.
Qed.

(** C4, as the code has it: idempotence under the conditions of the data
    model.  When the records of each url in the store carry one date, the
    sitemap entries of one url carry one date, the loader makes at least one
    chunk of every entry and stamps its chunks with url and date, and the
    batch size is positive, then after a complete first run a second
    reconciliation of the same sitemap returns an empty [to_index], deletes
    nothing and leaves the store as it is. *)
Theorem second_run_finds_nothing `{Platform} limit state config w final w1 entries :
  sitemap_entries state = Some entries →
  (1 ≤ batch_size_of config)%Z →
  stamps_every_entry entries →
  one_date_per_url (store w) →
  one_date_per_sitemap_url entries →
  loader_graph limit state config w = (Ok final, w1) →
  ∃ state2 w2,
    filter_sitemap_entries state config w1 = (Ok state2, w2)
    ∧ to_index state2 = []
    ∧ to_delete w2 = []
    ∧ store w2 = store w1.
Proof.
  intros Hs Hpos Hstamps Hone Hsitemap Hrun.
  unfold loader_graph, mbind, M_bind in Hrun.
  destruct (filter_sitemap_entries state config w) as [[state'|e] w'] eqn:Hfilter; [|done].
  apply filter_sitemap_entries_inv in Hfilter
    as (entries' & md & db & Hs' & Hc & Hfault & Hf & -> & ->).
  assert (entries' = entries) as -> by congruence.
  apply (batch_loop_store config _ entries Hc eq_refl Hpos Hstamps) in Hrun
    as [Hext Hfault1]; [|by intros entry [_ ?]%list_elem_of_filter].
  simpl in Hext, Hfault1.
  assert (well_stamped (store w1)) as Hws.
  { intros i doc Hi. destruct Hext as (_ & Hnew & _).
    destruct (Hnew i doc Hi) as [[_ Hold]%lookup_foldr_delete_Some | (e' & _ & Hst)].
    - by apply (fetched_well_stamped _ _ _ Hf i doc).
    - destruct Hst as (Hsrc & lm & Hl & Ht). split; [by eexists|].
      exists lm. split; [done | by eexists]. }
  destruct (well_stamped_fetched _ Hws) as (md2 & db2 & Hf2).
  assert (∀ entry, entry ∈ entries → vector_flag entry db2 = 1) as Hflags.
  { intros entry Hin.
    by apply (second_fetch_flags (store w) md db entries (store w1) md2 db2). }
  eexists _, _. split.
  { apply (filter_sitemap_entries_run _ _ _ entries md2 db2); try done. congruence. }
  rewrite to_delete_after_filter.
  assert (filter (indexed db2) entries = []) as Hnone.
  { clear -Hflags. induction entries as [|e es IH]; [done|].
    rewrite filter_cons, decide_False.
    - apply IH. intros entry Hin. apply Hflags. by right.
    - intros Hidx. apply Hidx, Hflags. by left. }
  assert (entries ≫= stale_ids md2 db2 = []) as Hnodel.
  { clear -Hflags. induction entries as [|e es IH]; [done|].
    rewrite bind_cons, IH.
    - unfold stale_ids. rewrite decide_False; [done|].
      rewrite Hflags; [lia | by left].
    - intros entry Hin. apply Hflags. by right. }
  split_and!.
  - unfold to_index, pending. simpl. by rewrite Hnone.
  - done.
  - simpl. by rewrite Hnodel.
Qed.

Example blank_first_run :
  loader_graph (H := blank_platform) 5 (state_of [entry_a]) some_config empty_world
  = (Ok (state_of []), after_graph blank_platform 5 (state_of [entry_a]) some_config empty_world).
Proof. vm_compute. reflexivity. Qed.

Example blank_second_run :
  (filter_sitemap_entries (H := blank_platform) (state_of [entry_a]) some_config
     (after_graph blank_platform 5 (state_of [entry_a]) some_config empty_world)).1
  = Ok (state_of [entry_a]).
Proof. vm_compute. reflexivity. Qed.

Example repeated_first_run :
  loader_graph (H := reversed_platform) 5 (state_of [entry_a; entry_feb]) some_config empty_world
  = (Ok {| sitemap_entries := Some []; documents_count := 2 |},
     after_graph reversed_platform 5 (state_of [entry_a; entry_feb]) some_config empty_world).
Proof. vm_compute. reflexivity. Qed.

Example repeated_second_run :
  (filter_sitemap_entries (H := reversed_platform)
     (state_of [entry_a; entry_feb]) some_config
     (after_graph reversed_platform 5 (state_of [entry_a; entry_feb])
        some_config empty_world)).1
  = Ok (state_of [entry_feb]).
Proof. vm_compute. reflexivity. Qed.

Example repeated_second_run_deletes :
  to_delete
    (filter_sitemap_entries (H := reversed_platform)
       (state_of [entry_a; entry_feb]) some_config
       (after_graph reversed_platform 5 (state_of [entry_a; entry_feb])
          some_config empty_world)).2
  = ["1"; "0"].
Proof. vm_compute. reflexivity. Qed.

(** C4 as stated fails.  A page of which the splitter makes no chunk
    leaves no record, so that the sitemap [[a]] on an empty index is New
    again in the second run.  And the sitemap with the entries [a] of
    2024-01-01 and [a] of 2024-02-01, both New on an empty index, leaves
    records of both dates: a second run that meets the pair of 2024-01-01
    first finds the second entry updated, puts it into [to_index] and deletes
    both records. *)
Lemma second_run_not_empty :
  ¬ second_run_is_empty blank_platform 5 (state_of [entry_a]) some_config empty_world
  ∧ ¬ second_run_is_empty reversed_platform 5 (state_of [entry_a; entry_feb])
        some_config empty_world.
Proof.
  split; intros Hclaim.
  - destruct (Hclaim _ _ blank_first_run) as (state2 & w2 & Hrun & Hidx & _).
    pose proof blank_second_run as Hsecond. rewrite Hrun in Hsecond.
    simpl in Hsecond. injection Hsecond as ->. discriminate Hidx.
  - destruct (Hclaim _ _ repeated_first_run) as (state2 & w2 & Hrun & Hidx & _).
    pose proof repeated_second_run as Hsecond. rewrite Hrun in Hsecond.
    simpl in Hsecond. injection Hsecond as ->. discriminate Hidx.
Qed.

Lemma chunk_of_stamped entry :
  date_fromisoformat (date_isoformat (lastmod entry)) = Some (lastmod entry) →
  stamped (H := reference_platform) (chunk_of entry) entry.
Proof. intros Hdate. split; [done|]. by exists (date_isoformat (lastmod entry)). Qed.

Lemma reference_platform_stamps :
  stamps_every_entry (H := reference_platform) [entry_feb; entry_b].
Proof.
  assert (∀ entry, entry ∈ [entry_feb; entry_b] →
            stamped (H := reference_platform) (chunk_of entry) entry) as Hst.
  { intros entry Hin. apply chunk_of_stamped.
    apply elem_of_cons in Hin as [-> | Hin]; [reflexivity|].
    apply list_elem_of_singleton in Hin as ->. reflexivity. }
  intros batch documents Hsub [= <-]. split.
  - intros doc (entry & -> & Hin)%list_elem_of_fmap. exists entry. auto.
  - intros entry Hin. exists (chunk_of entry). split; [|auto].
    by apply list_elem_of_fmap_2.
Qed.

Lemma second_run_finds_nothing_witness :
  ∃ state2 w2,
    filter_sitemap_entries (H := reference_platform) (state_of [entry_feb; entry_b]) some_config
      (after_graph reference_platform 3 (state_of [entry_feb; entry_b]) some_config world_jan)
    = (Ok state2, w2)
    ∧ to_index state2 = []
    ∧ to_delete w2 = []
    ∧ store w2
      = store (after_graph reference_platform 3 (state_of [entry_feb; entry_b])
                 some_config world_jan).
Proof.
  apply (second_run_finds_nothing (H := reference_platform) 3
           (state_of [entry_feb; entry_b]) some_config world_jan
           {| sitemap_entries := Some []; documents_count := 2 |} _ [entry_feb; entry_b]).
  - reflexivity.
  - by vm_compute.
  - apply reference_platform_stamps.
  - apply world_jan_one_date.
  - intros e1 e2 Hin1 Hin2 Hurl.
    apply elem_of_cons in Hin1 as [-> | ->%list_elem_of_singleton];
      apply elem_of_cons in Hin2 as [-> | ->%list_elem_of_singleton];
      done.
  - vm_compute. reflexivity.
Defined.

(** * Further properties of the loader graph *)

(** ** A record whose date cannot be read *)

Lemma db_pairs_raises `{Platform} md bad :
  bad ∈ md → fromisoformat (md_lastmod bad) = None →
  ∃ msg, db_pairs md = Raise (ValueError msg).
Proof.
  intros Hin Hbad. induction md as [|m ms IH]; [by apply not_elem_of_nil in Hin|].
  simpl. destruct (fromisoformat (md_lastmod m)) as [t|] eqn:Ht; [|by eexists].
  apply elem_of_cons in Hin as [-> | Hin]; [congruence|].
  destruct (IH Hin) as [msg ->]. by exists msg.
Qed.

(** X1: [datetime.fromisoformat] is called outside the [try].  When the
    fetch itself succeeds but one fetched record, of whatever url, has a
    [lastmod] that cannot be read, the node raises a [ValueError] (not the
    [RuntimeError] of a failed fetch), after the count and the search; the
    store is as it was and no [delete_by_ids] call is made. *)
Theorem unreadable_lastmod_aborts `{Platform} state config w entries i doc lm :
  sitemap_entries state = Some entries →
  not_config config = false →
  search_fault w = None →
  (∀ j d, store w !! j = Some d →
          is_Some (metadata d !! "source") ∧ is_Some (metadata d !! "lastmod")) →
  store w !! i = Some doc →
  metadata doc !! "lastmod" = Some lm →
  fromisoformat lm = None →
  ∃ msg w',
    filter_sitemap_entries state config w = (Raise (ValueError msg), w')
    ∧ store w' = store w
    ∧ deletions (calls w') = deletions (calls w)
    ∧ calls w' = calls w ++ [CallCount; CallSearch "" (fetch_size w)].
Proof.
  intros Hs Hc Hfault Hkeys Hi Hlm Hbad.
  destruct (metadata_list_of_total (map_to_list (store w))) as [md Hmd].
  { intros [j d] Hr%elem_of_map_to_list. by apply (Hkeys j d). }
  assert (∃ bad, bad ∈ md ∧ md_lastmod bad = lm) as (bad & Hin & Hbadlm).
  { pose proof (metadata_list_of_Ok _ _ Hmd) as Hall.
    apply elem_of_map_to_list in Hi.
    destruct (proj1 (list_elem_of_lookup _ _) Hi) as [n Hn].
    destruct (Forall2_lookup_l _ _ _ _ _ Hall Hn) as (m & Hm & _ & _ & Hl).
    simpl in Hl. exists m. split; [by eapply list_elem_of_lookup_2 | congruence]. }
  destruct (db_pairs_raises md bad Hin) as [msg Hraise]; [congruence|].
  exists msg. eexists. split.
  - unfold filter_sitemap_entries. rewrite Hs, Hc.
    unfold mbind, M_bind, new_manager, try_except, similarity_search, lift; simpl.
    rewrite Hfault. fold (fetch_size w). rewrite take_fetch_size, Hmd, Hraise.
    reflexivity.
  - unfold log; simpl. split_and!; try done.
    + unfold deletions. rewrite !omap_app. simpl. by rewrite !app_nil_r.
    + by rewrite <- app_assoc.
Qed.

Lemma unreadable_lastmod_aborts_witness :
  ∃ msg w',
    filter_sitemap_entries (H := reference_platform) (state_of [entry_feb]) some_config
      world_bad_date = (Raise (ValueError msg), w')
    ∧ store w' = store world_bad_date
    ∧ deletions (calls w') = deletions (calls world_bad_date)
    ∧ calls w' = calls world_bad_date ++ [CallCount; CallSearch "" (fetch_size world_bad_date)].
Proof.
  apply (unreadable_lastmod_aborts (H := reference_platform) (state_of [entry_feb])
           some_config world_bad_date [entry_feb] "q" (record "b" "yesterday") "yesterday").
  - reflexivity.
  - reflexivity.
  - reflexivity.
  - intros j d Hj. simpl in Hj.
    apply lookup_insert_Some in Hj as [[_ <-] | [_ Hj]].
    + split; by eexists.
    + apply lookup_singleton_Some in Hj as [_ <-]. split; by eexists.
  - reflexivity.
  - reflexivity.
  - reflexivity.
Defined.

(** ** Order and multiplicity of the outputs *)

(** X2: [new_entries] is built by appending in sitemap order, so the
    [to_index] list that the node returns is a sublist of the sitemap: the
    entries keep their relative order and none is repeated or made up. *)
Theorem to_index_keeps_sitemap_order `{Platform} state config w state' w' entries :
  sitemap_entries state = Some entries →
  filter_sitemap_entries state config w = (Ok state', w') →
  to_index state' `sublist_of` entries
  ∧ documents_count state' = documents_count state.
Proof.
  intros Hs (entries' & md & db & Hs' & _ & _ & _ & -> & _)%filter_sitemap_entries_inv.
  assert (entries' = entries) as -> by congruence.
  split; [|done]. unfold to_index, pending. simpl. apply sublist_filter.
Qed.

Lemma to_index_keeps_sitemap_order_witness :
  to_index (state_of [entry_b; entry_c]) `sublist_of` [entry_b; entry_a; entry_c]
  ∧ documents_count (state_of [entry_b; entry_c])
    = documents_count (state_of [entry_b; entry_a; entry_c]).
Proof.
  apply (to_index_keeps_sitemap_order (H := reference_platform)
           (state_of [entry_b; entry_a; entry_c]) some_config world_jan
           (state_of [entry_b; entry_c]) (after_filter world_jan [])).
  - reflexivity.
  - vm_compute. reflexivity.
Defined.

Lemma fetched_ids_NoDup `{Platform} s md db u : fetched s md db → NoDup (ids_of u md).
Proof.
  intros (pairs & Hmd%metadata_list_of_Ok & _ & _).
  assert (md_id <$> md = (map_to_list s).*1) as Hids.
  { induction Hmd as [|r m rs ms (Hid & _) _ IH]; [done|].
    rewrite !fmap_cons. by rewrite Hid, IH. }
  unfold ids_of.
  assert (NoDup (md_id <$> md)) as Hnodup by (rewrite Hids; apply NoDup_fst_map_to_list).
  apply (sublist_NoDup _ _ Hnodup). apply fmap_sublist, sublist_filter.
Qed.

Lemma size_foldr_delete (s : gmap string Document) (ids : list string) :
  NoDup ids → (∀ i, i ∈ ids → is_Some (s !! i)) →
  size (foldr delete s ids) + length ids = size s.
Proof.
  induction 1 as [|i ids Hni _ IH]; intros Hin; simpl; [lia|].
  rewrite map_size_delete_Some.
  - assert (size (foldr delete s ids) ≠ 0) as Hpos.
    { apply map_size_ne_0_lookup. exists i.
      rewrite lookup_foldr_delete_not_elem_of by done. apply Hin. by left. }
    rewrite <- IH; [lia|]. intros j Hj. apply Hin. by right.
  - rewrite lookup_foldr_delete_not_elem_of by done. apply Hin. by left.
Qed.

(** X3: when the sitemap does not repeat a url, no id is handed to
    [delete_by_ids] twice, every id handed over is in the store, and the
    store loses exactly as many chunks as [to_delete] has ids. *)
Theorem each_id_deleted_once `{Platform} state config w state' w' entries :
  sitemap_entries state = Some entries →
  NoDup (url <$> entries) →
  filter_sitemap_entries state config w = (Ok state', w') →
  NoDup (to_delete w')
  ∧ (∀ i, i ∈ to_delete w' → is_Some (store w !! i))
  ∧ size (store w') + length (to_delete w') = size (store w).
Proof.
  intros Hs Hurls (entries' & md & db & Hs' & _ & _ & Hf & -> & ->)%filter_sitemap_entries_inv.
  assert (entries' = entries) as -> by congruence.
  rewrite to_delete_after_filter.
  assert (NoDup (entries ≫= stale_ids md db)) as Hnodup.
  { apply NoDup_bind.
    - intros e1 e2 i Hin1 Hin2 Hi1 Hi2. unfold stale_ids in Hi1, Hi2.
      destruct (decide (vector_flag e1 db = 2)); [|by apply not_elem_of_nil in Hi1].
      destruct (decide (vector_flag e2 db = 2)); [|by apply not_elem_of_nil in Hi2].
      apply (fetched_ids _ _ _ _ _ Hf) in Hi1, Hi2.
      pose proof (has_source_agree _ _ _ _ Hi1 Hi2) as Hurl.
      clear -Hurls Hin1 Hin2 Hurl.
      induction entries as [|e es IH]; [by apply not_elem_of_nil in Hin1|].
      rewrite fmap_cons in Hurls. apply NoDup_cons in Hurls as [Hne Hrest].
      apply elem_of_cons in Hin1 as [-> | Hin1]; apply elem_of_cons in Hin2 as [-> | Hin2].
      + done.
      + destruct Hne. rewrite Hurl. by apply list_elem_of_fmap_2.
      + destruct Hne. rewrite <- Hurl. by apply list_elem_of_fmap_2.
      + by apply IH.
    - intros e _. unfold stale_ids. case_decide; [|constructor].
      by apply fetched_ids_NoDup with (store w) db.
    - by apply NoDup_fmap_1 with url. }
  assert (∀ i, i ∈ entries ≫= stale_ids md db → is_Some (store w !! i)) as Hin.
  { intros i (e & _ & _ & (d & Hd & _))%(elem_of_deleted _ _ _ _ _ Hf). by exists d. }
  split_and!; try done. simpl. by apply size_foldr_delete.
Qed.

Lemma each_id_deleted_once_witness :
  NoDup (to_delete (after_filter world_ab ["x"; "z"]))
  ∧ (∀ i, i ∈ to_delete (after_filter world_ab ["x"; "z"]) → is_Some (store world_ab !! i))
  ∧ size (store (after_filter world_ab ["x"; "z"]))
    + length (to_delete (after_filter world_ab ["x"; "z"]))
    = size (store world_ab).
Proof.
  apply (each_id_deleted_once (H := reference_platform)
           (state_of [entry_feb; entry_b; entry_c]) some_config world_ab
           (state_of [entry_feb; entry_b; entry_c]) _ [entry_feb; entry_b; entry_c]).
  - reflexivity.
  - apply (bool_decide_unpack _). vm_compute. reflexivity.
  - vm_compute. reflexivity.
Defined.

(** ** The batch size *)

Lemma slice_partition {A} (n : Z) (l : list A) : slice_to n l ++ slice_from n l = l.
Proof. unfold slice_to, slice_from. case_decide; apply take_drop. Qed.

Lemma slice_from_nonpositive {A} (n : Z) (x : A) (l : list A) :
  (n ≤ 0)%Z → slice_from n (x :: l) ≠ [].
Proof.
  intros Hn Hnil. apply (f_equal length) in Hnil. unfold slice_from in Hnil.
  case_decide.
  - replace (Z.to_nat n) with 0 in Hnil by lia. done.
  - rewrite length_drop in Hnil. simpl in Hnil. lia.
Qed.

(** A visit of [create_documents] with a non-empty queue, for any batch
    size. *)
Lemma create_documents_visit `{Platform} state config w x q :
  not_config config = false →
  pending state = x :: q →
  create_documents state config w
  = match load_and_split (slice_to (batch_size_of config) (x :: q)) with
    | Ok documents =>
        (Ok {| sitemap_entries := Some (slice_from (batch_size_of config) (x :: q));
               documents_count :=
                 (documents_count state + Z.of_nat (length documents))%Z |},
         after_batch w (slice_to (batch_size_of config) (x :: q)) documents)
    | Raise e =>
        (Raise e, log (CallLoad (slice_to (batch_size_of config) (x :: q))) (log CallCount w))
    end.
Proof.
  intros Hc Hq. unfold create_documents. rewrite Hc, Hq.
  fold (batch_size_of config).
  unfold mbind, M_bind, new_manager, load, add_documents, mret, M_ret; simpl.
  destruct (load_and_split _) as [documents|e]; [|done].
  unfold after_batch, log, set_store; simpl. by rewrite <- !app_assoc.
Qed.

(** X4: whatever the configured batch size, positive or not, a visit of
    [create_documents] that returns has split the queue in two: the batch it
    handed to the loader, followed by the queue it leaves, is the queue it
    found.  No entry is lost or taken twice. *)
Theorem batch_and_rest_are_the_queue `{Platform} state config w state' w' :
  pending state ≠ [] →
  create_documents state config w = (Ok state', w') →
  ∃ batch,
    loads (calls w') = loads (calls w) ++ [batch]
    ∧ batch = slice_to (batch_size_of config) (pending state)
    ∧ batch ++ pending state' = pending state.
Proof.
  intros Hne Hrun.
  destruct (not_config config) eqn:Hc.
  { unfold create_documents in Hrun. by rewrite Hc in Hrun. }
  destruct (pending state) as [|x q] eqn:Hq; [done|].
  rewrite (create_documents_visit _ _ _ _ _ Hc Hq) in Hrun.
  destruct (load_and_split _) as [documents|e]; [|done].
  injection Hrun as <- <-. eexists. split_and!; [|done|].
  - unfold loads, after_batch. simpl. by rewrite omap_app.
  - apply slice_partition.
Qed.

Lemma batch_and_rest_are_the_queue_witness :
  ∃ batch,
    loads (calls (after_batch (H := reference_platform) empty_world
                    [entry_a; entry_b] [chunk_of entry_a; chunk_of entry_b]))
    = loads (calls empty_world) ++ [batch]
    ∧ batch = slice_to (batch_size_of (H := reference_platform) (config_with_batch_size (-1)))
                (pending (state_of [entry_a; entry_b; entry_c]))
    ∧ batch ++ pending {| sitemap_entries := Some [entry_c]; documents_count := 2 |}
      = pending (state_of [entry_a; entry_b; entry_c]).
Proof.
  apply (batch_and_rest_are_the_queue (H := reference_platform)
           (state_of [entry_a; entry_b; entry_c]) (config_with_batch_size (-1)) empty_world).
  - discriminate.
  - vm_compute. reflexivity.
Defined.

(** X5: with a batch size of zero or less the queue that
    [create_documents] leaves is never empty, so the loop on a non-empty
    queue does not complete under any recursion limit: it ends in the
    recursion error, or in an error the loader raised. *)
Theorem nonpositive_batch_size_never_completes `{Platform} limit state config w :
  not_config config = false →
  (batch_size_of config ≤ 0)%Z →
  pending state ≠ [] →
  ∃ e w',
    batch_loop limit state config w = (Raise e, w')
    ∧ (e = GraphRecursionError ∨ ∃ batch, load_and_split batch = Raise e).
Proof.
  intros Hc Hsize. revert state w.
  induction limit as [|limit IH]; intros state w Hne.
  - exists GraphRecursionError, w. split; [done | by left].
  - destruct (pending state) as [|x q] eqn:Hq; [done|].
    simpl. unfold mbind, M_bind. rewrite (create_documents_visit _ _ _ _ _ Hc Hq).
    destruct (load_and_split _) as [documents|e] eqn:Hload.
    + set (state1 := {| sitemap_entries := Some (slice_from (batch_size_of config) (x :: q));
                        documents_count :=
                          (documents_count state + Z.of_nat (length documents))%Z |}).
      assert (pending state1 ≠ []) as Hne1 by (by apply slice_from_nonpositive).
      unfold check_next_batch. destruct (pending state1) eqn:Hq1; [done|].
      apply IH. by rewrite Hq1.
    + eexists _, _. split; [done|]. right. by eexists.
Qed.

Lemma nonpositive_batch_size_never_completes_witness :
  ∃ e w',
    batch_loop (H := reference_platform) 50 (state_of [entry_a; entry_b])
      (config_with_batch_size 0) empty_world = (Raise e, w')
    ∧ (e = GraphRecursionError
       ∨ ∃ batch, load_and_split (Platform := reference_platform) batch = Raise e).
Proof.
  apply (nonpositive_batch_size_never_completes (H := reference_platform) 50
           (state_of [entry_a; entry_b]) (config_with_batch_size 0) empty_world).
  - reflexivity.
  - by vm_compute.
  - discriminate.
Defined.

(** ** The calls of a run of the graph *)

Lemma create_documents_calls `{Platform} state config w r w' :
  create_documents state config w = (r, w') →
  ∃ cs, calls w' = calls w ++ cs ∧ Forall is_indexing_call cs.
Proof.
  intros Hrun. destruct (not_config config) eqn:Hc.
  { unfold create_documents in Hrun. rewrite Hc in Hrun. injection Hrun as _ <-.
    exists []. by rewrite app_nil_r. }
  destruct (pending state) as [|x q] eqn:Hq.
  { unfold create_documents in Hrun. rewrite Hc, Hq in Hrun. injection Hrun as _ <-.
    exists []. by rewrite app_nil_r. }
  rewrite (create_documents_visit _ _ _ _ _ Hc Hq) in Hrun.
  destruct (load_and_split _) as [documents|e]; injection Hrun as _ <-.
  - eexists. split; [done|]. by repeat constructor.
  - eexists. unfold log. simpl. rewrite <- app_assoc. split; [done|]. by repeat constructor.
Qed.

Lemma batch_loop_calls `{Platform} limit state config w r w' :
  batch_loop limit state config w = (r, w') →
  ∃ cs, calls w' = calls w ++ cs ∧ Forall is_indexing_call cs.
Proof.
  revert state w. induction limit as [|limit IH]; intros state w Hrun.
  - injection Hrun as _ <-. exists []. by rewrite app_nil_r.
  - simpl in Hrun. unfold mbind, M_bind in Hrun.
    destruct (create_documents state config w) as [[state1|e] w1] eqn:Hstep.
    + destruct (create_documents_calls _ _ _ _ _ Hstep) as (cs1 & Hcs1 & Hall1).
      destruct (check_next_batch state1).
      * destruct (IH _ _ Hrun) as (cs2 & Hcs2 & Hall2).
        exists (cs1 ++ cs2). rewrite Hcs2, Hcs1, <- app_assoc.
        split; [done | by apply Forall_app_2].
      * injection Hrun as _ <-. by exists cs1.
    + injection Hrun as _ <-. by apply (create_documents_calls _ _ _ _ _ Hstep).
Qed.

Lemma filter_sitemap_entries_calls `{Platform} state config w r w' :
  filter_sitemap_entries state config w = (r, w') →
  ∃ cs, calls w' = calls w ++ cs ∧ Forall is_reconciliation_call cs
        ∧ length (deletions cs) ≤ 1.
Proof.
  intros Hrun. unfold filter_sitemap_entries in Hrun.
  destruct (sitemap_entries state) as [entries|].
  2:{ injection Hrun as _ <-. exists []. rewrite app_nil_r.
      split; [done|]. split; [constructor | simpl; lia]. }
  destruct (not_config config).
  { injection Hrun as _ <-. exists []. rewrite app_nil_r.
      split; [done|]. split; [constructor | simpl; lia]. }
  unfold mbind, M_bind, new_manager, try_except, similarity_search, lift, raise in Hrun.
  simpl in Hrun.
  assert (∃ cs, calls (log (CallSearch "" (fetch_size w)) (log CallCount w)) = calls w ++ cs
                ∧ Forall is_reconciliation_call cs ∧ length (deletions cs) ≤ 1) as Hfetch.
  { eexists. unfold log. simpl. rewrite <- app_assoc. split; [done|].
    split; [by repeat constructor | simpl; lia]. }
  fold (fetch_size w) in Hrun.
  destruct (search_fault w); [by injection Hrun as _ <-|].
  destruct (metadata_list_of _) as [md|]; [|by injection Hrun as _ <-].
  destruct (db_pairs md) as [pairs|]; simpl in Hrun; [|by injection Hrun as _ <-].
  destruct (filter_loop md (set_iter pairs) entries) as [new_entries delete_ids].
  unfold delete_by_ids, mret, M_ret in Hrun. injection Hrun as _ <-.
  eexists. unfold log, set_store. simpl. rewrite <- !app_assoc.
  split; [done|]. split; [by repeat constructor | simpl; lia].
Qed.

(** X6: in every run of the graph, however it ends, the calls made on the
    store are the calls of the reconciliation (count, search, delete)
    followed by the calls of the batch loop (count, load, add): nothing is
    searched or deleted once loading has begun, and [delete_by_ids] is called
    at most once. *)
Theorem deletes_precede_loads `{Platform} limit state config w r w1 :
  loader_graph limit state config w = (r, w1) →
  ∃ before after,
    calls w1 = calls w ++ before ++ after
    ∧ Forall is_reconciliation_call before
    ∧ Forall is_indexing_call after
    ∧ length (deletions before) ≤ 1
    ∧ deletions (calls w1) = deletions (calls w) ++ deletions before.
Proof.
  intros Hrun. unfold loader_graph, mbind, M_bind in Hrun.
  destruct (filter_sitemap_entries state config w) as [[state'|e] w'] eqn:Hfilter;
    destruct (filter_sitemap_entries_calls _ _ _ _ _ Hfilter) as (cs & Hcs & Hall & Hdel).
  - destruct (batch_loop_calls _ _ _ _ _ _ Hrun) as (cs2 & Hcs2 & Hall2).
    exists cs, cs2. rewrite Hcs2, Hcs, <- app_assoc. split_and!; try done.
    unfold deletions. rewrite !omap_app.
    assert (omap (λ c, match c with CallDelete ids => Some ids | _ => None end) cs2 = [])
      as ->; [|by rewrite app_nil_r].
    clear -Hall2. induction Hall2 as [|c l Hc _ IH]; [done|].
    destruct c; try done; exact IH.
  - injection Hrun as _ <-. exists cs, []. rewrite app_nil_r.
    split_and!; try done. unfold deletions. by rewrite Hcs, omap_app.
Qed.

(** X7: what the graph returns as [documents_count].  When the
    reconciliation leaves nothing to index, the graph ends after one visit of
    [create_documents], which sets the count to 0 whatever it was, and no
    batch is loaded.  Otherwise (batch size [B >= 1], every batch loads, the
    recursion limit allows it) the loader gets the batches of [to_index] in
    order and the count is the incoming count plus the chunks added. *)
Theorem graph_documents_count `{Platform} limit state config w state' w' :
  filter_sitemap_entries state config w = (Ok state', w') →
  (1 ≤ batch_size_of config)%Z →
  Forall loads_well (batches (Z.to_nat (batch_size_of config)) (to_index state')) →
  1 ≤ limit →
  length (batches (Z.to_nat (batch_size_of config)) (to_index state')) ≤ limit →
  ∃ final w1,
    loader_graph limit state config w = (Ok final, w1)
    ∧ pending final = []
    ∧ loads (calls w1) = loads (calls w)
                         ++ batches (Z.to_nat (batch_size_of config)) (to_index state')
    ∧ (to_index state' = [] → documents_count final = 0%Z ∧ w1 = w')
    ∧ (to_index state' ≠ [] →
       documents_count final
       = (documents_count state
          + Z.of_nat (sum_list (chunk_count
                                  <$> batches (Z.to_nat (batch_size_of config))
                                        (to_index state'))))%Z).
Proof.
  intros Hfilter Hpos Hload Hl Hlimit.
  pose proof Hfilter as (entries & md & db & _ & Hc & _ & _ & Hst & Hw)%filter_sitemap_entries_inv.
  destruct (batch_loop_drains config _ Hc eq_refl Hpos limit state' w' Hl Hlimit Hload)
    as (final & w1 & Hrun & Hfin & Hloads & _ & Hcnt).
  exists final, w1. unfold loader_graph, mbind, M_bind. rewrite Hfilter.
  split_and!; try done.
  - rewrite Hloads. f_equal. rewrite Hw. unfold loads, after_filter. simpl.
    rewrite omap_app. simpl. by rewrite app_nil_r.
  - unfold to_index. intros Hnil. rewrite Hnil in Hcnt. split; [done|].
    destruct limit as [|limit']; [lia|]. simpl in Hrun. unfold mbind, M_bind in Hrun.
    rewrite (create_documents_empty config Hc _ _ Hnil) in Hrun.
    unfold check_next_batch, pending in *. simpl in Hrun. rewrite Hnil in Hrun.
    by injection Hrun as _ <-.
  - unfold to_index. intros Hne. destruct (pending state'); [done|].
    rewrite Hcnt. by rewrite Hst.
Qed.

Lemma graph_documents_count_witness :
  ∃ final w1,
    loader_graph (H := reference_platform) 3 (state_of [entry_feb; entry_b; entry_c])
      (config_with_batch_size 2) world_jan = (Ok final, w1)
    ∧ pending final = []
    ∧ loads (calls w1) = [[entry_feb; entry_b]; [entry_c]]
    ∧ documents_count final = 3%Z.
Proof.
  destruct (graph_documents_count (H := reference_platform) 3
              (state_of [entry_feb; entry_b; entry_c]) (config_with_batch_size 2) world_jan
              (state_of [entry_feb; entry_b; entry_c]) (after_filter world_jan ["x"]))
    as (final & w1 & Hrun & Hfin & Hloads & _ & Hcnt).
  - vm_compute. reflexivity.
  - by vm_compute.
  - repeat constructor; by eexists.
  - lia.
  - vm_compute. lia.
  - exists final, w1. split; [exact Hrun|]. split; [exact Hfin|].
    split; [rewrite Hloads; reflexivity|].
    rewrite Hcnt by discriminate. reflexivity.
Defined.

Lemma deletes_precede_loads_witness :
  ∃ before after,
    calls (after_graph reference_platform 3 (state_of [entry_feb; entry_b; entry_c])
             (config_with_batch_size 2) world_jan)
    = calls world_jan ++ before ++ after
    ∧ Forall is_reconciliation_call before
    ∧ Forall is_indexing_call after
    ∧ length (deletions before) ≤ 1
    ∧ deletions (calls (after_graph reference_platform 3
                          (state_of [entry_feb; entry_b; entry_c])
                          (config_with_batch_size 2) world_jan))
      = deletions (calls world_jan) ++ deletions before.
Proof.
  apply (deletes_precede_loads (H := reference_platform) 3
           (state_of [entry_feb; entry_b; entry_c]) (config_with_batch_size 2) world_jan
           (Ok {| sitemap_entries := Some []; documents_count := 3 |})).
  vm_compute. reflexivity.
Defined.

(** ** The store after a complete run *)

(** Where a record of the store after the batch loop comes from: it was
    there and was not deleted, or it was added for an entry of [to_index]. *)
Lemma record_origin `{Platform} s md db entries s1 i u t :
  extended_for (foldr delete s (entries ≫= stale_ids md db)) s1
               (filter (indexed db) entries) →
  has_record s1 i u t →
  ((i ∉ entries ≫= stale_ids md db) ∧ has_record s i u t)
  ∨ ∃ e', e' ∈ entries ∧ indexed db e' ∧ u = url e' ∧ t = lastmod e'.
Proof.
  intros (_ & Hnew & _) Hrec. pose proof Hrec as (doc & lm & Hi & _).
  destruct (Hnew i doc Hi) as [Hold | (e' & [Hidx Hin']%list_elem_of_filter & Hst)].
  - left. apply has_record_after_delete.
    destruct Hrec as (doc' & lm' & Hi' & Hsrc & Hl & Ht).
    assert (doc' = doc) as -> by congruence. by exists doc, lm'.
  - right. exists e'. destruct (record_stamped _ _ _ _ _ _ Hi Hst Hrec). done.
Qed.

(** X8: a complete run re-establishes what it assumes.  When the records
    of each url carry one date, the sitemap entries of one url carry one
    date, the loader stamps at least one chunk per entry and the batch size
    is positive, then after the graph has completed every sitemap entry has
    a record of its url in the store, no record of its url is older than the
    entry, and the records of each url again carry one date. *)
Theorem complete_run_store_up_to_date `{Platform} limit state config w final w1 entries :
  sitemap_entries state = Some entries →
  (1 ≤ batch_size_of config)%Z →
  stamps_every_entry entries →
  one_date_per_url (store w) →
  one_date_per_sitemap_url entries →
  loader_graph limit state config w = (Ok final, w1) →
  (∀ entry, entry ∈ entries →
     (∃ i t, has_record (store w1) i (url entry) t)
     ∧ ∀ i t, has_record (store w1) i (url entry) t → (lastmod entry ≤ t)%Z)
  ∧ one_date_per_url (store w1).
Proof.
  intros Hs Hpos Hstamps Hone Hsitemap Hrun.
  unfold loader_graph, mbind, M_bind in Hrun.
  destruct (filter_sitemap_entries state config w) as [[state'|e] w'] eqn:Hfilter; [|done].
  apply filter_sitemap_entries_inv in Hfilter
    as (entries' & md & db & Hs' & Hc & Hfault & Hf & -> & ->).
  assert (entries' = entries) as -> by congruence.
  apply (batch_loop_store config _ entries Hc eq_refl Hpos Hstamps) in Hrun
    as [Hext _]; [|by intros entry [_ ?]%list_elem_of_filter].
  simpl in Hext. pose proof Hext as (Hkeep & _ & Hall).
  assert (∀ i u t, has_record (store w1) i u t →
            ((i ∉ entries ≫= stale_ids md db) ∧ has_record (store w) i u t)
            ∨ ∃ e', e' ∈ entries ∧ indexed db e' ∧ u = url e' ∧ t = lastmod e') as Horigin.
  { intros i u t. by apply record_origin. }
  clear Hext.
  split.
  - intros entry Hin. destruct (decide (vector_flag entry db = 1)) as [H1 | Hidx].
    + destruct (vector_flag_1 _ _ H1) as (t0 & Hpair & Hle).
      apply (fetched_pairs _ _ _ _ _ Hf) in Hpair as [i0 Hrec0]. split.
      * exists i0, t0. destruct Hrec0 as (doc & lm & Hi & Hsrc0 & Hl0 & Ht0).
        exists doc, lm. split; [|done]. apply Hkeep, lookup_foldr_delete_Some.
        split; [|done].
        intros (e' & Hin' & H2 & Hsrc)%(elem_of_deleted _ _ _ _ _ Hf).
        assert (url e' = url entry) as Hurl.
        { eapply has_source_agree; [exact Hsrc | by exists doc]. }
        rewrite (unchanged_by_url _ _ _ _ _ _ Hf Hone Hsitemap Hin Hin' Hurl H1) in H2.
        discriminate.
      * intros i t Hrec.
        destruct (Horigin _ _ _ Hrec) as [[_ Hold] | (e' & Hin' & Hidx & Hurl & ->)].
        -- by rewrite (Hone _ _ _ _ _ Hold Hrec0).
        -- destruct Hidx.
           by apply (unchanged_by_url _ _ _ _ entry e' Hf Hone Hsitemap).
    + split.
      * destruct (Hall entry) as (i & doc & Hi & Hst).
        { apply list_elem_of_filter. by split. }
        exists i, (lastmod entry). by apply stamped_record with doc.
      * intros i t Hrec.
        destruct (Horigin _ _ _ Hrec) as [Hold | (e' & Hin' & _ & Hurl & ->)].
        -- destruct (indexed_url_cleared (store w) md db entries entry i Hf Hin Hidx).
           apply has_source_after_delete. destruct Hold as [Hni Hold].
           split; [done | by eapply has_record_source].
        -- by rewrite (Hsitemap entry e' Hin Hin' Hurl).
  - intros u i j t t' Hi Hj.
    destruct (Horigin _ _ _ Hi) as [[Hni Hold] | (e1 & Hin1 & Hidx1 & -> & ->)];
      destruct (Horigin _ _ _ Hj) as [[Hnj Hold'] | (e2 & Hin2 & Hidx2 & Hu2 & ->)].
    + by eapply Hone.
    + subst u. destruct (indexed_url_cleared (store w) md db entries e2 i Hf Hin2 Hidx2).
      apply has_source_after_delete. split; [done | by eapply has_record_source].
    + destruct (indexed_url_cleared (store w) md db entries e1 j Hf Hin1 Hidx1).
      apply has_source_after_delete. split; [done | by eapply has_record_source].
    + by apply Hsitemap.
Qed.

Lemma complete_run_store_up_to_date_witness :
  (∀ entry, entry ∈ [entry_feb; entry_b] →
     (∃ i t, has_record (H := reference_platform)
               (store (after_graph reference_platform 3 (state_of [entry_feb; entry_b])
                         some_config world_jan)) i (url entry) t)
     ∧ ∀ i t, has_record (H := reference_platform)
                (store (after_graph reference_platform 3 (state_of [entry_feb; entry_b])
                          some_config world_jan)) i (url entry) t →
              (lastmod entry ≤ t)%Z)
  ∧ one_date_per_url (H := reference_platform)
      (store (after_graph reference_platform 3 (state_of [entry_feb; entry_b])
                some_config world_jan)).
Proof.
  apply (complete_run_store_up_to_date (H := reference_platform) 3
           (state_of [entry_feb; entry_b]) some_config world_jan
           {| sitemap_entries := Some []; documents_count := 2 |}).
  - reflexivity.
  - by vm_compute.
  - apply reference_platform_stamps.
  - apply world_jan_one_date.
  - intros e1 e2 Hin1 Hin2 Hurl.
    apply elem_of_cons in Hin1 as [-> | ->%list_elem_of_singleton];
      apply elem_of_cons in Hin2 as [-> | ->%list_elem_of_singleton];
      done.
  - vm_compute. reflexivity.
Defined.

(** * Properties of the Slack bot *)

(** ** [_is_valid_event] *)

(** The outcomes of [_is_valid_event]. *)
Lemma is_valid_event_cases `{Chat} (event : gmap string json) :
  (direct_channel event = false ∨ truthy (event !! "bot_id") = true →
     is_valid_event event = Done false)
  ∧ (∀ s, direct_channel event = true → truthy (event !! "bot_id") = false →
          default (JStr "") (event !! "text") = JStr s →
          is_valid_event event
          = if bool_decide (strip s = "")
            then Failed (Std (ValueError "Message text is empty."))
            else Done true)
  ∧ (is_valid_event event = Done true ↔
       direct_channel event = true ∧ truthy (event !! "bot_id") = false
       ∧ ∃ s, default (JStr "") (event !! "text") = JStr s ∧ strip s ≠ "").
Proof.
  unfold is_valid_event. split_and!.
  - intros [-> | Hbot]; [done|]. rewrite Hbot. by destruct (direct_channel event).
  - intros s -> -> ->. done.
  - destruct (direct_channel event); simpl; [|split; [done | by intros [? _]]].
    destruct (truthy (event !! "bot_id")); [split; [done | by intros (_ & ? & _)]|].
    destruct (default (JStr "") (event !! "text")) as [| | |s] eqn:Htext; simpl;
      try (split; [done | by intros (_ & _ & s' & ? & _)]).
    case_bool_decide as Hs.
    + split; [done|]. intros (_ & _ & s' & [= <-] & Hne). done.
    + split; [|done]. intros _. split_and!; try done. by exists s.
Qed.

(** X9: the three checks of [_is_valid_event] in their order.  An event
    that is not from a direct-message or group channel, or that carries a
    truthy [bot_id], is answered [False] without its text being looked at;
    otherwise a text that is a string (or absent) is accepted exactly when
    something is left of it after [strip], and [ValueError("Message text is
    empty.")] is raised when nothing is. *)
Theorem valid_event_checks `{Chat} (event : gmap string json) :
  (direct_channel event = false ∨ truthy (event !! "bot_id") = true →
     is_valid_event event = Done false)
  ∧ (∀ s, direct_channel event = true → truthy (event !! "bot_id") = false →
          default (JStr "") (event !! "text") = JStr s →
          is_valid_event event
          = if bool_decide (strip s = "")
            then Failed (Std (ValueError "Message text is empty."))
            else Done true)
  ∧ (is_valid_event event = Done true ↔
       direct_channel event = true ∧ truthy (event !! "bot_id") = false
       ∧ ∃ s, default (JStr "") (event !! "text") = JStr s ∧ strip s ≠ "").
Proof. apply is_valid_event_cases. Qed.

(** ** [handle_direct_message] *)

Section handler.
Context `{Chat}.

Lemma handler_ignored (body_event : option (gmap string json)) (l : list action) :
  ack = Done () →
  is_valid_event (default ∅ body_event) = Done false →
  handle_direct_message body_event l = (Done (), l ++ [Acked]).
Proof.
  intros Hack Hvalid. unfold handle_direct_message, mbind, Bot_bind, perform, attempt.
  rewrite Hack. unfold lift_outcome. by rewrite Hvalid.
Qed.

(** The handler on an event that passes the check. *)
Lemma handler_valid (event : gmap string json) (l : list action) c s :
  ack = Done () →
  is_valid_event event = Done true →
  event !! "channel" = Some c →
  default (JStr "") (event !! "text") = JStr s →
  handle_direct_message (Some event) l
  = attempt
      (_ ← send_typing_placeholder c (event !! "user");
       response ← generate_response (strip s);
       send_response c response)
      on_error (l ++ [Acked]).
Proof.
  intros Hack Hvalid Hc Hs. unfold handle_direct_message.
  unfold mbind at 1. unfold Bot_bind at 1. unfold perform at 1. rewrite Hack.
  unfold attempt. simpl default. unfold mbind at 1. unfold Bot_bind at 1.
  unfold lift_outcome at 1. rewrite Hvalid. simpl negb. cbv iota.
  unfold mbind at 1. unfold Bot_bind at 1. unfold lift_outcome at 1.
  unfold getitem_json. rewrite Hc.
  unfold mbind at 1. unfold Bot_bind at 1. unfold lift_outcome at 1.
  rewrite Hs. reflexivity.
Qed.
End handler.

Lemma on_error_says `{Chat} (e : raised) (l : list action) :
  (∀ text, say text = Done ()) →
  ∃ msg, on_error e l = (Done (), l ++ [Said msg]).
Proof.
  intros Hsay. unfold on_error, perform.
  destruct e as [[] | |]; rewrite Hsay; by eexists.
Qed.

(** X10: a message of a bot, or from a channel that is neither a direct
    message nor a group, or a body without an event, is acknowledged and
    nothing else: nothing is posted, asked or said, whatever the text. *)
Theorem bots_and_channels_ignored `{Chat} (body_event : option (gmap string json))
    (l : list action) :
  ack = Done () →
  direct_channel (default ∅ body_event) = false
  ∨ truthy (default ∅ body_event !! "bot_id") = true →
  handle_direct_message body_event l = (Done (), l ++ [Acked]).
Proof.
  intros Hack Hskip. apply handler_ignored; [done|].
  by apply is_valid_event_cases.
Qed.

Lemma bots_and_channels_ignored_witness :
  handle_direct_message (H := friendly_chat) (Some bot_event) [] = (Done (), [] ++ [Acked]).
Proof.
  apply (bots_and_channels_ignored (H := friendly_chat) (Some bot_event) []).
  - reflexivity.
  - right. reflexivity.
Defined.

(** X11: the handler keeps every error of the processing to itself.  When
    [ack] and [say] succeed, the handler returns for every body, whatever the
    client and the RAG system do; it acknowledges first, and it says at most
    one thing, as its last action. *)
Theorem handler_contains_errors `{Chat} (body_event : option (gmap string json))
    (l : list action) :
  ack = Done () →
  (∀ text, say text = Done ()) →
  ∃ rest,
    handle_direct_message body_event l = (Done (), l ++ Acked :: rest)
    ∧ ∃ before, Forall (λ a, is_said a = false) before
                ∧ (rest = before ∨ ∃ msg, rest = before ++ [Said msg]).
Proof.
  intros Hack Hsay.
  assert (∀ e before,
            Forall (λ a, is_said a = false) before →
            ∃ rest, on_error e ((l ++ [Acked]) ++ before) = (Done (), l ++ Acked :: rest)
                    ∧ ∃ before', Forall (λ a, is_said a = false) before'
                        ∧ (rest = before' ∨ ∃ msg, rest = before' ++ [Said msg])) as Herr.
  { intros e before Hbefore. destruct (on_error_says e ((l ++ [Acked]) ++ before) Hsay)
      as [msg ->]. exists (before ++ [Said msg]). split.
    - by rewrite <- !app_assoc.
    - exists before. split; [done|]. right. by exists msg. }
  unfold handle_direct_message, mbind, Bot_bind, perform, attempt, lift_outcome.
  rewrite Hack. set (event := default ∅ body_event).
  destruct (is_valid_event event) as [[|]|e] eqn:Hvalid; simpl.
  - (* a valid event *)
    apply is_valid_event_cases in Hvalid as (_ & _ & s & Htext & _).
    unfold getitem_json. destruct (event !! "channel") as [c|].
    2:{ destruct (Herr (Std (KeyError "channel")) []) as (rest & Hrun & Hshape); [done|].
        rewrite app_nil_r in Hrun. by exists rest. }
    rewrite Htext. simpl.
    unfold send_typing_placeholder, generate_response, send_response,
      attempt, perform, fail, mbind, Bot_bind, mret, Bot_ret.
    set (ph := Placeholder c (placeholder_text (event !! "user")) (event !! "user")).
    destruct (chat_postMessage ph) as [[]|].
    2:{ destruct (Herr (Std (ValueError "Unable to send 'Thinking...' placeholder."))
                   [Posted ph]) as (rest & Hrun & Hshape); [by repeat constructor|].
        by exists rest. }
    destruct (get_answer (strip s)) as [results|e].
    2:{ destruct (Herr e [Posted ph; Asked (strip s)]) as (rest & Hrun & Hshape);
          [by repeat constructor|].
        rewrite <- !app_assoc in Hrun. rewrite <- !app_assoc. by exists rest. }
    destruct results as [|r rs].
    + set (m := Response c (Text "No relevant information found for your query.")).
      destruct (chat_postMessage m) as [[]|].
      * exists [Posted ph; Asked (strip s); Posted m]. rewrite <- !app_assoc. split; [done|].
        eexists. split; [|by left]. by repeat constructor.
      * destruct (Herr (Std (ValueError "Unable to send the Slack response."))
                    [Posted ph; Asked (strip s); Posted m]) as (rest & Hrun & Hshape);
          [by repeat constructor|].
        rewrite <- !app_assoc in Hrun. rewrite <- !app_assoc. by exists rest.
    + set (m := Response c (Blocks (build_slack_message_blocks (r :: rs)))).
      destruct (chat_postMessage m) as [[]|].
      * exists [Posted ph; Asked (strip s); Posted m]. rewrite <- !app_assoc. split; [done|].
        eexists. split; [|by left]. by repeat constructor.
      * destruct (Herr (Std (ValueError "Unable to send the Slack response."))
                    [Posted ph; Asked (strip s); Posted m]) as (rest & Hrun & Hshape);
          [by repeat constructor|].
        rewrite <- !app_assoc in Hrun. rewrite <- !app_assoc. by exists rest.
  - exists []. split; [done|]. exists []. split; [constructor | by left].
  - destruct (Herr e []) as (rest & Hrun & Hshape); [done|].
    rewrite app_nil_r in Hrun. by exists rest.
Qed.

Lemma handler_contains_errors_witness :
  ∃ rest,
    handle_direct_message (H := refusing_chat) (Some dm_event) [] = (Done (), [] ++ Acked :: rest)
    ∧ ∃ before, Forall (λ a, is_said a = false) before
                ∧ (rest = before ∨ ∃ msg, rest = before ++ [Said msg]).
Proof.
  apply (handler_contains_errors (H := refusing_chat) (Some dm_event) []).
  - reflexivity.
  - reflexivity.
Defined.

Lemma on_error_text `{Chat} (e : raised) (l : list action) :
  on_error e l = (say (error_text e), l ++ [Said (error_text e)]).
Proof. unfold on_error, perform, error_text. by destruct e as [[] | |]. Qed.

Lemma question_runs `{Chat} (event : gmap string json) c s (l : list action) :
  ack = Done () →
  question event c s →
  handle_direct_message (Some event) l
  = attempt
      (_ ← send_typing_placeholder c (event !! "user");
       response ← generate_response (strip s);
       send_response c response)
      on_error (l ++ [Acked]).
Proof.
  intros Hack (Hdm & Hbot & Htext & Hne & Hc). apply handler_valid; try done.
  apply is_valid_event_cases. split_and!; try done. by exists s.
Qed.

(** X12: when the placeholder cannot be posted, the RAG system is not
    asked and no response is posted: after the acknowledgement and the
    attempt, the handler says [Unable to send 'Thinking...' placeholder.]
    and ends with whatever [say] returns. *)
Theorem placeholder_failure_skips_rag `{Chat} (event : gmap string json) c s e
    (l : list action) :
  ack = Done () →
  question event c s →
  chat_postMessage (Placeholder c (placeholder_text (event !! "user")) (event !! "user"))
  = Failed e →
  handle_direct_message (Some event) l
  = (say "Unable to send 'Thinking...' placeholder.",
     l ++ [Acked;
           Posted (Placeholder c (placeholder_text (event !! "user")) (event !! "user"));
           Said "Unable to send 'Thinking...' placeholder."]).
Proof.
  intros Hack Hq Hpost. rewrite (question_runs _ _ _ _ Hack Hq).
  unfold attempt, send_typing_placeholder, mbind, Bot_bind, attempt, perform, fail.
  rewrite Hpost. rewrite on_error_text. simpl. by rewrite <- !app_assoc.
Qed.

Lemma placeholder_failure_skips_rag_witness :
  handle_direct_message (H := refusing_chat) (Some dm_event) []
  = (Done (),
     [] ++ [Acked; Posted (Placeholder (JStr "D1") "Hi <@U1>, I'm starting to process your request..."
                             (Some (JStr "U1")));
            Said "Unable to send 'Thinking...' placeholder."]).
Proof.
  apply (placeholder_failure_skips_rag (H := refusing_chat) dm_event (JStr "D1") " hello "
           (SlackApiError "channel_not_found") []).
  - reflexivity.
  - split_and!; try reflexivity. by vm_compute.
  - reflexivity.
Defined.

(** X13: the answer.  For an event that passes the check and a client
    that accepts the placeholder, the RAG system is asked the stripped text
    once; its results go to the channel of the event as Block Kit blocks, or
    as the text [No relevant information found for your query.] when there
    are none.  When the client refuses the response, the handler says
    [Unable to send the Slack response.] instead. *)
Theorem answer_is_posted `{Chat} (event : gmap string json) c s results (l : list action) :
  ack = Done () →
  question event c s →
  chat_postMessage (Placeholder c (placeholder_text (event !! "user")) (event !! "user"))
  = Done () →
  get_answer (strip s) = Done results →
  (chat_postMessage (Response c (answer_of results)) = Done () →
     handle_direct_message (Some event) l
     = (Done (),
        l ++ [Acked;
              Posted (Placeholder c (placeholder_text (event !! "user")) (event !! "user"));
              Asked (strip s);
              Posted (Response c (answer_of results))]))
  ∧ (∀ e, chat_postMessage (Response c (answer_of results)) = Failed e →
     handle_direct_message (Some event) l
     = (say "Unable to send the Slack response.",
        l ++ [Acked;
              Posted (Placeholder c (placeholder_text (event !! "user")) (event !! "user"));
              Asked (strip s);
              Posted (Response c (answer_of results));
              Said "Unable to send the Slack response."])).
Proof.
  intros Hack Hq Hph Hans. rewrite (question_runs _ _ _ _ Hack Hq).
  unfold attempt, send_typing_placeholder, generate_response, send_response,
    mbind, Bot_bind, attempt, perform, fail, mret, Bot_ret.
  rewrite Hph, Hans.
  destruct results as [|r rs]; unfold answer_of; split.
  - intros ->. by rewrite <- !app_assoc.
  - intros e ->. rewrite on_error_text. simpl. by rewrite <- !app_assoc.
  - intros ->. by rewrite <- !app_assoc.
  - intros e ->. rewrite on_error_text. simpl. by rewrite <- !app_assoc.
Qed.

Lemma answer_is_posted_witness :
  handle_direct_message (H := friendly_chat) (Some dm_event) []
  = (Done (),
     [] ++ [Acked;
            Posted (Placeholder (JStr "D1") "Hi <@U1>, I'm starting to process your request..."
                      (Some (JStr "U1")));
            Asked "hello";
            Posted (Response (JStr "D1") (answer_of [sample_result]))]).
Proof.
  apply (answer_is_posted (H := friendly_chat) dm_event (JStr "D1") " hello "
           [sample_result] []).
  - reflexivity.
  - split_and!; try reflexivity. by vm_compute.
  - reflexivity.
  - reflexivity.
  - reflexivity.
Defined.

(** X14: an error of the RAG system.  A [ValueError] raised by
    [get_answer] reaches the user with its own message; any other exception
    is replaced by [An unexpected error occurred. Please try again later.];
    in both cases no response is posted. *)
Theorem rag_error_is_said `{Chat} (event : gmap string json) c s e (l : list action) :
  ack = Done () →
  question event c s →
  chat_postMessage (Placeholder c (placeholder_text (event !! "user")) (event !! "user"))
  = Done () →
  get_answer (strip s) = Failed e →
  handle_direct_message (Some event) l
  = (say (error_text e),
     l ++ [Acked;
           Posted (Placeholder c (placeholder_text (event !! "user")) (event !! "user"));
           Asked (strip s);
           Said (error_text e)])
  ∧ (∀ msg, e = Std (ValueError msg) → error_text e = msg)
  ∧ ((∀ msg, e ≠ Std (ValueError msg)) →
     error_text e = "An unexpected error occurred. Please try again later.").
Proof.
  intros Hack Hq Hph Hans. split_and!.
  - rewrite (question_runs _ _ _ _ Hack Hq).
    unfold attempt, send_typing_placeholder, generate_response,
      mbind, Bot_bind, attempt, perform, fail.
    rewrite Hph, Hans. rewrite on_error_text. simpl. by rewrite <- !app_assoc.
  - by intros msg ->.
  - intros Hne. destruct e as [[] | |]; try done. by destruct (Hne msg).
Qed.

Lemma rag_error_is_said_witness :
  handle_direct_message (H := failing_rag_chat) (Some dm_event) []
  = (Done (),
     [] ++ [Acked;
            Posted (Placeholder (JStr "D1") "Hi <@U1>, I'm starting to process your request..."
                      (Some (JStr "U1")));
            Asked "hello";
            Said "Index is empty."]).
Proof.
  apply (rag_error_is_said (H := failing_rag_chat) dm_event (JStr "D1") " hello "
           (Std (ValueError "Index is empty.")) []).
  - reflexivity.
  - split_and!; try reflexivity. by vm_compute.
  - reflexivity.
  - reflexivity.
Defined.

Lemma valid_event_checks_witness :
  is_valid_event (H := friendly_chat) dm_event = Done true
  ∧ is_valid_event (H := friendly_chat) bot_event = Done false.
Proof.
  split.
  - apply (valid_event_checks (H := friendly_chat) dm_event).
    split_and!; try reflexivity. exists " hello ". split; [reflexivity | by vm_compute].
  - apply (valid_event_checks (H := friendly_chat) bot_event). right. reflexivity.
Defined.

(** ** The message blocks *)

(** X15: the blocks show the [url], [summary] and [response] of the first
    twenty results and nothing else: two result lists whose first twenty
    entries agree on these three keys give the same message, whatever
    [score], [decision] or other keys they carry. *)
Theorem blocks_show_three_keys (results results' : list (gmap string string)) :
  Forall2 (λ r r', r !! "url" = r' !! "url" ∧ r !! "summary" = r' !! "summary"
                   ∧ r !! "response" = r' !! "response")
          (take 20 results) (take 20 results') →
  build_slack_message_blocks results = build_slack_message_blocks results'.
Proof.
  intros Hagree. unfold build_slack_message_blocks. rewrite !foldl_blocks. f_equal.
  induction Hagree as [|r r' rs rs' (Hu & Hs & Hr) _ IH]; [done|].
  rewrite !bind_cons, IH. do 2 f_equal.
  unfold result_text, get. by rewrite Hu, Hs, Hr.
Qed.

Lemma blocks_show_three_keys_witness :
  build_slack_message_blocks [sample_result]
  = build_slack_message_blocks [delete "score" sample_result].
Proof.
  apply (blocks_show_three_keys [sample_result] [delete "score" sample_result]).
  repeat constructor.
Defined.

(** * Properties of the document processor *)





